(** * A shallow embedding of the chess rule engine of [ChessGame/Main.cpp]

    The engine is the [Piece] class hierarchy (per-piece move generation),
    and the [Board] class: an 8x8 grid of owning pointers, the side to move,
    the game-over flags and a stack of [MoveCommand] records for undo.

    Conventions of the embedding.
    - C++ [int] is modelled by [Z].  On a well-formed board every coordinate
      the engine computes stays within [-2, 9], so no wrap-around can occur.
    - [std::unique_ptr<Piece>] is modelled by [option Piece]; [None] is the
      null pointer.  A piece is a record of the four data members of the
      [Piece] base class; virtual dispatch is a match on the [type] member,
      which each concrete class fixes in its constructor.
    - [squares] is a list of rows, indexed [squares[y][x]] as in the source.
    - Mutation of the board is explicit state passing: a function that
      mutates [squares] returns the new grid next to its result. *)

From stdpp Require Import base tactics option list numbers list_numbers strings.
From Stdlib Require Import ZArith Lia Bool.

Local Open Scope Z_scope.

(** ** Constants and enumerations *)

Definition BOARD_SIZE : Z := 8.

Inductive PieceType : Set :=
  | NoType | Rook | Knight | Bishop | Queen | King | Pawn.

Inductive PieceColor : Set :=
  | NoColor | Black | White.

#[global] Instance PieceType_eq_dec : EqDecision PieceType.
Proof. solve_decision. Defined.

#[global] Instance PieceColor_eq_dec : EqDecision PieceColor.
Proof. solve_decision. Defined.

(** ** [Vector2Int] *)

Record Vector2Int : Set := mkVector2Int { x : Z; y : Z }.

(** [Vector2Int::operator==] *)
Definition v2_eqb (a b : Vector2Int) : bool :=
  (x a =? x b) && (y a =? y b).

(** ** [Piece] *)

Record Piece : Set := mkPiece {
  type : PieceType;
  color : PieceColor;
  boardPosition : Vector2Int;
  hasMoved : bool
}.

(** The [Piece] constructor: a new piece has not moved. *)
Definition newPiece (t : PieceType) (c : PieceColor) (pos : Vector2Int) : Piece :=
  mkPiece t c pos false.

Definition set_boardPosition (p : Piece) (pos : Vector2Int) : Piece :=
  mkPiece (type p) (color p) pos (hasMoved p).

Definition set_hasMoved (p : Piece) (m : bool) : Piece :=
  mkPiece (type p) (color p) (boardPosition p) m.

(** [Clone] copy-constructs the piece: all four members are copied. *)
Definition Clone (p : Piece) : Piece := p.

(** ** The grid of squares *)

(** [std::vector<std::vector<std::unique_ptr<Piece>>>] *)
Abbreviation Grid := (list (list (option Piece))).

(** [squares[cy][cx]]: the pointer stored in a square.  Every access of the
    source is guarded by [InBounds] (or comes from a generated move, which is
    in bounds), so the out-of-range answer [None] is never observed on an
    8x8 grid. *)
Definition cell (sq : Grid) (cx cy : Z) : option Piece :=
  match sq !! Z.to_nat cy with
  | Some row =>
      match row !! Z.to_nat cx with
      | Some c => c
      | None => None
      end
  | None => None
  end.

(** [squares[cy][cx] = v] *)
Definition put (sq : Grid) (cx cy : Z) (v : option Piece) : Grid :=
  alter (fun row => <[Z.to_nat cx := v]> row) (Z.to_nat cy) sq.

(** [squares[dy][dx] = std::move(squares[sy][sx])]: the source square is
    released (left null) and the destination takes its pointer. *)
Definition move_cell (sq : Grid) (sx sy dx dy : Z) : Grid :=
  put (put sq sx sy None) dx dy (cell sq sx sy).

(** [squares[cy][cx]->member = ...]: a write through the pointer stored in
    a square.  The source only does this where the pointer is not null; the
    embedding leaves the grid alone otherwise. *)
Definition modify (sq : Grid) (cx cy : Z) (f : Piece -> Piece) : Grid :=
  match cell sq cx cy with
  | Some p => put sq cx cy (Some (f p))
  | None => sq
  end.

(** The grid built by the [Board] constructor: [BOARD_SIZE] rows of
    [BOARD_SIZE] null pointers. *)
Definition empty_grid : Grid :=
  replicate (Z.to_nat BOARD_SIZE) (replicate (Z.to_nat BOARD_SIZE) None).

(** ** Static helpers of [Piece] *)

Definition InBounds (cx cy : Z) : bool :=
  (0 <=? cx) && (cx <? BOARD_SIZE) && (0 <=? cy) && (cy <? BOARD_SIZE).

Definition CanMoveTo (board : Grid) (cx cy : Z) (ownColor : PieceColor) : bool :=
  if negb (InBounds cx cy) then false
  else match cell board cx cy with
       | None => true
       | Some q => negb (bool_decide (color q = ownColor))
       end.

(** ** Move generation *)

(** One ray of the sliding pieces: the inner [for (step = 1; step < BOARD_SIZE; ++step)]
    loop with its two [break]s, for the remaining values of [step]. *)
Fixpoint ray (board : Grid) (own : PieceColor) (pos : Vector2Int) (d : Z * Z)
    (steps : list Z) : list Vector2Int :=
  match steps with
  | [] => []
  | step :: rest =>
      let nx := x pos + fst d * step in
      let ny := y pos + snd d * step in
      if negb (InBounds nx ny) then []
      else match cell board nx ny with
           | None => mkVector2Int nx ny :: ray board own pos d rest
           | Some q =>
               if negb (bool_decide (color q = own)) then [mkVector2Int nx ny] else []
           end
  end.

(** The outer [for (auto& d : dirs)] loop of Rook, Bishop and Queen. *)
Definition slide (board : Grid) (own : PieceColor) (pos : Vector2Int)
    (dirs : list (Z * Z)) : list Vector2Int :=
  flat_map (fun d => ray board own pos d (seqZ 1 (BOARD_SIZE - 1))) dirs.

Definition rook_dirs : list (Z * Z) := [(1,0); (-1,0); (0,1); (0,-1)].
Definition bishop_dirs : list (Z * Z) := [(1,1); (1,-1); (-1,1); (-1,-1)].
Definition queen_dirs : list (Z * Z) :=
  [(1,0); (-1,0); (0,1); (0,-1); (1,1); (1,-1); (-1,1); (-1,-1)].

Definition knight_jumps : list (Z * Z) :=
  [(1,2); (2,1); (-1,2); (-2,1); (1,-2); (2,-1); (-1,-2); (-2,-1)].

(** The body shared by the knight's and the king's loops: an in-bounds
    square that is empty or holds a piece of another colour. *)
Definition step_to (board : Grid) (own : PieceColor) (nx ny : Z) : list Vector2Int :=
  if InBounds nx ny then
    match cell board nx ny with
    | None => [mkVector2Int nx ny]
    | Some q => if negb (bool_decide (color q = own)) then [mkVector2Int nx ny] else []
    end
  else [].

Definition Rook_GetValidMoves (p : Piece) (board : Grid) : list Vector2Int :=
  slide board (color p) (boardPosition p) rook_dirs.

Definition Bishop_GetValidMoves (p : Piece) (board : Grid) : list Vector2Int :=
  slide board (color p) (boardPosition p) bishop_dirs.

Definition Queen_GetValidMoves (p : Piece) (board : Grid) : list Vector2Int :=
  slide board (color p) (boardPosition p) queen_dirs.

Definition Knight_GetValidMoves (p : Piece) (board : Grid) : list Vector2Int :=
  flat_map (fun j => step_to board (color p)
                       (x (boardPosition p) + fst j) (y (boardPosition p) + snd j))
           knight_jumps.

Definition King_GetValidMoves (p : Piece) (board : Grid) : list Vector2Int :=
  flat_map (fun dx =>
    flat_map (fun dy =>
      if (dx =? 0) && (dy =? 0) then []
      else step_to board (color p) (x (boardPosition p) + dx) (y (boardPosition p) + dy))
      (seqZ (-1) 3))
    (seqZ (-1) 3).

Definition is_null (o : option Piece) : bool :=
  match o with None => true | Some _ => false end.

Definition Pawn_GetValidMoves (p : Piece) (board : Grid) : list Vector2Int :=
  let direction := if bool_decide (color p = White) then -1 else 1 in
  let startRow := if bool_decide (color p = White) then 6 else 1 in
  let px := x (boardPosition p) in
  let py := y (boardPosition p) in
  let forward :=
    if InBounds px (py + direction) && is_null (cell board px (py + direction)) then
      mkVector2Int px (py + direction) ::
      (if (py =? startRow) && InBounds px (py + 2 * direction)
          && is_null (cell board px (py + 2 * direction))
       then [mkVector2Int px (py + 2 * direction)] else [])
    else [] in
  let captures :=
    flat_map (fun dx =>
      let nx := px + dx in
      let ny := py + direction in
      if InBounds nx ny then
        match cell board nx ny with
        | Some q => if negb (bool_decide (color q = color p)) then [mkVector2Int nx ny] else []
        | None => []
        end
      else []) [-1; 1] in
  forward ++ captures.

(** Virtual dispatch of [Piece::GetValidMoves].  No concrete class carries
    [PieceType::None]; that case has no moves. *)
Definition GetValidMoves (p : Piece) (board : Grid) : list Vector2Int :=
  match type p with
  | Rook => Rook_GetValidMoves p board
  | Knight => Knight_GetValidMoves p board
  | Bishop => Bishop_GetValidMoves p board
  | Queen => Queen_GetValidMoves p board
  | King => King_GetValidMoves p board
  | Pawn => Pawn_GetValidMoves p board
  | NoType => []
  end.

(** [Piece::IsPromotion]: overridden by [Pawn] only. *)
Definition IsPromotion (p : Piece) : bool :=
  match type p with
  | Pawn =>
      (bool_decide (color p = White) && (y (boardPosition p) =? 0))
      || (bool_decide (color p = Black) && (y (boardPosition p) =? 7))
  | _ => false
  end.

(** [PieceFactory::CreatePiece]: null for [PieceType::None]. *)
Definition CreatePiece (t : PieceType) (c : PieceColor) (pos : Vector2Int) : option Piece :=
  match t with
  | NoType => None
  | _ => Some (newPiece t c pos)
  end.

(** ** [Board] *)

Inductive MoveResult : Set :=
  | Invalid | Success | Check | Checkmate | Stalemate.

#[global] Instance MoveResult_eq_dec : EqDecision MoveResult.
Proof. solve_decision. Defined.

(** The data members of [Board::MoveCommand].  [movedPiece] is the clone of
    the moving piece and is never null; [capturedPiece] may be null.  The
    [Board&] member always refers to the board that owns the history. *)
Record MoveCommand : Set := mkMoveCommand {
  from : Vector2Int;
  to : Vector2Int;
  movedPiece : Piece;
  capturedPiece : option Piece;
  wasMoved : bool;
  promotionOccurred : bool;
  previousTurn : PieceColor
}.

(** The data members of [Board]; the top of the [history] stack is the head
    of the list. *)
Record Board : Type := mkBoard {
  squares : Grid;
  currentTurn : PieceColor;
  gameOver : bool;
  winner : PieceColor;
  history : list MoveCommand
}.

Definition set_squares (b : Board) (sq : Grid) : Board :=
  mkBoard sq (currentTurn b) (gameOver b) (winner b) (history b).

(** [gameOver = g; winner = w;] *)
Definition set_result (b : Board) (g : bool) (w : PieceColor) : Board :=
  mkBoard (squares b) (currentTurn b) g w (history b).

(** [Board::Board()] *)
Definition newBoard : Board := mkBoard empty_grid White false NoColor [].

(** [squares[cy][cx] = PieceFactory::CreatePiece(t, c, Vector2Int(cx, cy))] *)
Definition place (t : PieceType) (c : PieceColor) (cx cy : Z) (sq : Grid) : Grid :=
  put sq cx cy (CreatePiece t c (mkVector2Int cx cy)).

Definition back_rank : list PieceType :=
  [Rook; Knight; Bishop; Queen; King; Bishop; Knight; Rook].

(** The eight assignments to the back rank [cy], in the order of the source. *)
Definition place_back_rank (c : PieceColor) (cy : Z) (sq : Grid) : Grid :=
  foldl (fun s '(cx, t) => place t c cx cy s) sq
        (zip (seqZ 0 BOARD_SIZE) back_rank).

(** The [for (i = 0; i < BOARD_SIZE; ++i)] loop that fills a pawn rank. *)
Definition place_pawns (c : PieceColor) (cy : Z) (sq : Grid) : Grid :=
  foldl (fun s i => place Pawn c i cy s) sq (seqZ 0 BOARD_SIZE).

(** [Board::Initialize] *)
Definition Initialize (b : Board) : Board :=
  let sq := place_pawns Black 1 (squares b) in
  let sq := place_back_rank Black 0 sq in
  let sq := place_pawns White 6 sq in
  let sq := place_back_rank White 7 sq in
  set_squares b sq.

(** The squares in the order of the nested loops
    [for (y = 0; y < BOARD_SIZE; y++) for (x = 0; x < BOARD_SIZE; x++)],
    as pairs [(x, y)]. *)
Definition board_cells : list (Z * Z) :=
  flat_map (fun cy => map (fun cx => (cx, cy)) (seqZ 0 BOARD_SIZE)) (seqZ 0 BOARD_SIZE).

Definition is_king_of (c : PieceColor) (o : option Piece) : bool :=
  match o with
  | Some p => bool_decide (type p = King) && bool_decide (color p = c)
  | None => false
  end.

(** [Board::FindKing]: the first king of the colour in scan order, or the
    sentinel (-1, -1). *)
Definition FindKing (c : PieceColor) (sq : Grid) : Vector2Int :=
  match find (fun xy => is_king_of c (cell sq (fst xy) (snd xy))) board_cells with
  | Some xy => mkVector2Int (fst xy) (snd xy)
  | None => mkVector2Int (-1) (-1)
  end.

(** The test the scan of [IsInCheck] makes at one square. *)
Definition attacks (c : PieceColor) (kingPos : Vector2Int) (sq : Grid) (xy : Z * Z) : bool :=
  match cell sq (fst xy) (snd xy) with
  | Some q =>
      negb (bool_decide (color q = c))
      && existsb (fun mv => v2_eqb mv kingPos) (GetValidMoves q sq)
  | None => false
  end.

(** [Board::IsInCheck] (a [const] member: the grid is only read). *)
Definition IsInCheck (c : PieceColor) (sq : Grid) : bool :=
  let kingPos := FindKing c sq in
  if x kingPos =? -1 then false
  else existsb (attacks c kingPos sq) board_cells.

(** The body of the innermost loop of [HasLegalMoves] up to the call of
    [IsInCheck]: the target pointer is moved out to [originalTarget], the
    piece of square [(cx, cy)] gets the new position and is moved to the
    target square. *)
Definition simulate (sq : Grid) (cx cy : Z) (mv : Vector2Int) : Grid :=
  let sq := put sq (x mv) (y mv) None in
  let sq := modify sq cx cy (fun p => set_boardPosition p mv) in
  let sq := move_cell sq cx cy (x mv) (y mv) in
  put sq cx cy None.

(** The three statements after the call of [IsInCheck]. *)
Definition restore (sq : Grid) (cx cy : Z) (mv : Vector2Int)
    (originalTarget : option Piece) (originalPos : Vector2Int) : Grid :=
  let sq := move_cell sq (x mv) (y mv) cx cy in
  let sq := modify sq cx cy (fun p => set_boardPosition p originalPos) in
  put sq (x mv) (y mv) originalTarget.

(** One pass through the body of the innermost loop: the value of
    [stillInCheck] and the grid after the restoration.  [originalPos] is read
    through the pointer of square [(cx, cy)] after the target pointer was
    moved out.  The [None] branch stands for a null dereference there; by
    [try_move_frame] the loops of [HasLegalMoves] never reach it. *)
Definition try_move (c : PieceColor) (cx cy : Z) (mv : Vector2Int) (sq : Grid)
    : bool * Grid :=
  let originalTarget := cell sq (x mv) (y mv) in
  match cell (put sq (x mv) (y mv) None) cx cy with
  | Some p =>
      let originalPos := boardPosition p in
      let sq1 := simulate sq cx cy mv in
      let stillInCheck := IsInCheck c sq1 in
      (stillInCheck, restore sq1 cx cy mv originalTarget originalPos)
  | None => (true, put sq (x mv) (y mv) None)
  end.

(** [for (const auto& move : moves)] with its early [return true]. *)
Fixpoint try_moves (c : PieceColor) (cx cy : Z) (moves : list Vector2Int) (sq : Grid)
    : bool * Grid :=
  match moves with
  | [] => (false, sq)
  | mv :: rest =>
      let '(stillInCheck, sq') := try_move c cx cy mv sq in
      if negb stillInCheck then (true, sq')
      else try_moves c cx cy rest sq'
  end.

(** The two outer loops of [HasLegalMoves] over the remaining squares. *)
Fixpoint scan_legal (c : PieceColor) (cells : list (Z * Z)) (sq : Grid) : bool * Grid :=
  match cells with
  | [] => (false, sq)
  | xy :: rest =>
      match cell sq (fst xy) (snd xy) with
      | Some p =>
          if bool_decide (color p = c) then
            let '(found, sq') := try_moves c (fst xy) (snd xy) (GetValidMoves p sq) sq in
            if found then (true, sq') else scan_legal c rest sq'
          else scan_legal c rest sq
      | None => scan_legal c rest sq
      end
  end.

(** [Board::HasLegalMoves]: not [const]; it returns the board it leaves.
    Only [squares] is written. *)
Definition HasLegalMoves (c : PieceColor) (b : Board) : bool * Board :=
  let '(found, sq) := scan_legal c board_cells (squares b) in
  (found, set_squares b sq).

(** [Board::HandlePromotion] *)
Definition HandlePromotion (pos : Vector2Int) (sq : Grid) : Grid :=
  match cell sq (x pos) (y pos) with
  | Some p => put sq (x pos) (y pos) (CreatePiece Queen (color p) pos)
  | None => sq
  end.

(** [currentTurn == White ? Black : White] *)
Definition flip_turn (c : PieceColor) : PieceColor :=
  if bool_decide (c = White) then Black else White.

(** [Board::MovePiece].  [piece] is the reference to [squares[from.y][from.x]];
    the generated moves never contain the piece's own square, so taking the
    target pointer out of [squares[to.y][to.x]] leaves it valid. *)
Definition MovePiece (f t : Vector2Int) (b : Board) : MoveResult * Board :=
  if gameOver b then (Invalid, b)
  else if negb (InBounds (x f) (y f)) || negb (InBounds (x t) (y t)) then (Invalid, b)
  else match cell (squares b) (x f) (y f) with
  | None => (Invalid, b)
  | Some piece =>
    if negb (bool_decide (color piece = currentTurn b)) then (Invalid, b)
    else
    let validMoves := GetValidMoves piece (squares b) in
    let moveLegal := existsb (fun m => v2_eqb m t) validMoves in
    if negb moveLegal then (Invalid, b)
    else
    let wasMoved := hasMoved piece in
    let movedPieceCopy := Clone piece in
    let capturedPiece := Clone <$> cell (squares b) (x t) (y t) in
    let previousTurn := currentTurn b in
    let originalTarget := cell (squares b) (x t) (y t) in
    let sq := put (squares b) (x t) (y t) None in
    let originalPos := boardPosition piece in
    let moved := set_hasMoved (set_boardPosition piece t) true in
    let sq := put sq (x f) (y f) (Some moved) in
    let isPromotion := IsPromotion moved in
    let sq := move_cell sq (x f) (y f) (x t) (y t) in
    let sq := put sq (x f) (y f) None in
    let sq := if isPromotion then HandlePromotion t sq else sq in
    if IsInCheck previousTurn sq then
      let sq := move_cell sq (x t) (y t) (x f) (y f) in
      let sq := modify sq (x f) (y f) (fun p => set_boardPosition p originalPos) in
      let sq := put sq (x t) (y t) originalTarget in
      (Invalid, set_squares b sq)
    else
      let command := mkMoveCommand f t movedPieceCopy capturedPiece wasMoved
                                   isPromotion previousTurn in
      let b := mkBoard sq (flip_turn (currentTurn b)) (gameOver b) (winner b)
                       (command :: history b) in
      let inCheck := IsInCheck (currentTurn b) (squares b) in
      let '(hasMoves, b) := HasLegalMoves (currentTurn b) b in
      if inCheck && negb hasMoves then
        (Checkmate, set_result b true (flip_turn (currentTurn b)))
      else if negb inCheck && negb hasMoves then
        (Stalemate, set_result b true NoColor)
      else if inCheck then (Check, b)
      else (Success, b)
  end.

(** [Board::MoveCommand::Undo], on the board the command refers to. *)
Definition Undo (cmd : MoveCommand) (b : Board) : Board :=
  let f := from cmd in
  let t := to cmd in
  let sq := put (squares b) (x f) (y f) (Some (movedPiece cmd)) in
  let sq := modify sq (x f) (y f) (fun p => set_boardPosition p f) in
  let sq := modify sq (x f) (y f) (fun p => set_hasMoved p (wasMoved cmd)) in
  let sq := put sq (x t) (y t) (capturedPiece cmd) in
  let sq := modify sq (x t) (y t) (fun p => set_boardPosition p t) in
  mkBoard sq (previousTurn cmd) false NoColor (history b).

(** [Board::UndoLastMove] *)
Definition UndoLastMove (b : Board) : bool * Board :=
  match history b with
  | [] => (false, b)
  | command :: rest =>
      let b' := Undo command b in
      (true, mkBoard (squares b') (currentTurn b') (gameOver b') (winner b') rest)
  end.

(** [Board::GetPieceAt] *)
Definition GetPieceAt (pos : Vector2Int) (b : Board) : option Piece :=
  if negb (InBounds (x pos) (y pos)) then None
  else cell (squares b) (x pos) (y pos).

(** ** Running the engine on concrete positions *)

Definition start : Board := Initialize newBoard.

Definition sq_of (cx cy : Z) : Vector2Int := mkVector2Int cx cy.

(** A sequence of [MovePiece] calls; the results are collected in order. *)
Fixpoint play (ms : list (Vector2Int * Vector2Int)) (b : Board) : list MoveResult * Board :=
  match ms with
  | [] => ([], b)
  | (f, t) :: rest =>
      let '(r, b1) := MovePiece f t b in
      let '(rs, b2) := play rest b1 in
      (r :: rs, b2)
  end.

(** The position after 1. a3 e6 2. a4 Qh4: the black queen on (7, 4) looks
    through the white pawn on (5, 6) at the white king on (4, 7). *)
Definition pinned_pawn_board : Board :=
  snd (play [(sq_of 0 6, sq_of 0 5); (sq_of 4 1, sq_of 4 2);
             (sq_of 0 5, sq_of 0 4); (sq_of 3 0, sq_of 7 4)] start).

(** White to move with a pawn on (0, 1); the white king on (4, 7) is in
    check from the black rook on (4, 0). *)
Definition promotion_board : Board :=
  let sq := place Pawn White 0 1 empty_grid in
  let sq := place King White 4 7 sq in
  let sq := place Rook Black 4 0 sq in
  let sq := place King Black 7 3 sq in
  mkBoard sq White false NoColor [].

(** The position before the mating move of the fool's mate. *)
Definition fools_mate_board : Board :=
  snd (play [(sq_of 5 6, sq_of 5 5); (sq_of 4 1, sq_of 4 3);
             (sq_of 6 6, sq_of 6 4)] start).

(** Black to move: the black pawn on (0, 6) can take the white rook on
    (1, 7) and promote. *)
Definition black_promotion_board : Board :=
  let sq := place Pawn Black 0 6 empty_grid in
  let sq := place Rook White 1 7 sq in
  let sq := place King White 7 7 sq in
  let sq := place King Black 4 0 sq in
  mkBoard sq Black false NoColor [].

(** Black to move: once the black queen goes from (2, 0) to (2, 6) the
    white king on (0, 7) is not attacked but has no square to go to. *)
Definition stalemate_board : Board :=
  let sq := place King White 0 7 empty_grid in
  let sq := place Queen Black 2 0 sq in
  let sq := place King Black 7 0 sq in
  mkBoard sq Black false NoColor [].

(** A board on which White has lost the king. *)
Definition kingless_board : Board :=
  let sq := place Rook Black 4 0 empty_grid in
  let sq := place King Black 7 3 sq in
  let sq := place Pawn White 0 6 sq in
  mkBoard sq White false NoColor [].

(** The boards the engine can be in: the initial position, and what
    [MovePiece] and [UndoLastMove] make of a board it can be in. *)
Inductive reachable : Board -> Prop :=
  | reachable_start : reachable start
  | reachable_move f t b : reachable b -> reachable (snd (MovePiece f t b))
  | reachable_undo b : reachable b -> reachable (snd (UndoLastMove b)).

(** ** Well-formed boards

    The representation invariant of [Board].  The constructor builds an
    8x8 grid and nothing resizes it; every piece is created by the factory
    with the position of the square it is put on, with one of the six piece
    types and with colour Black or White, and every later write of
    [boardPosition] goes with the move of the pointer; [currentTurn] starts
    as White and is only flipped; [winner] is only set together with
    [gameOver]. *)

Definition grid_shape (sq : Grid) : Prop :=
  length sq = Z.to_nat BOARD_SIZE
  /\ Forall (fun row => length row = Z.to_nat BOARD_SIZE) sq.

Definition piece_ok (cx cy : Z) (p : Piece) : Prop :=
  boardPosition p = mkVector2Int cx cy /\ color p <> NoColor /\ type p <> NoType.

Definition wf_grid (sq : Grid) : Prop :=
  grid_shape sq
  /\ forall cx cy p, InBounds cx cy = true -> cell sq cx cy = Some p -> piece_ok cx cy p.

Definition wf_command (cmd : MoveCommand) : Prop :=
  InBounds (x (from cmd)) (y (from cmd)) = true
  /\ InBounds (x (to cmd)) (y (to cmd)) = true
  /\ color (movedPiece cmd) <> NoColor /\ type (movedPiece cmd) <> NoType
  /\ (forall q, capturedPiece cmd = Some q -> color q <> NoColor /\ type q <> NoType)
  /\ previousTurn cmd <> NoColor.

Definition wf_board (b : Board) : Prop :=
  wf_grid (squares b)
  /\ currentTurn b <> NoColor
  /\ (gameOver b = false -> winner b = NoColor)
  /\ Forall wf_command (history b).

(** Executable checks of the invariant, for concrete boards. *)

Definition grid_shapeb (sq : Grid) : bool :=
  bool_decide (length sq = Z.to_nat BOARD_SIZE)
  && forallb (fun row => bool_decide (length row = Z.to_nat BOARD_SIZE)) sq.

Definition piece_okb (cx cy : Z) (o : option Piece) : bool :=
  match o with
  | None => true
  | Some p =>
      v2_eqb (boardPosition p) (mkVector2Int cx cy)
      && negb (bool_decide (color p = NoColor))
      && negb (bool_decide (type p = NoType))
  end.

Definition wf_gridb (sq : Grid) : bool :=
  grid_shapeb sq
  && forallb (fun xy => piece_okb (fst xy) (snd xy) (cell sq (fst xy) (snd xy))) board_cells.

Definition wf_commandb (cmd : MoveCommand) : bool :=
  InBounds (x (from cmd)) (y (from cmd))
  && InBounds (x (to cmd)) (y (to cmd))
  && negb (bool_decide (color (movedPiece cmd) = NoColor))
  && negb (bool_decide (type (movedPiece cmd) = NoType))
  && match capturedPiece cmd with
     | Some q => negb (bool_decide (color q = NoColor)) && negb (bool_decide (type q = NoType))
     | None => true
     end
  && negb (bool_decide (previousTurn cmd = NoColor)).

Definition wf_boardb (b : Board) : bool :=
  wf_gridb (squares b)
  && negb (bool_decide (currentTurn b = NoColor))
  && (gameOver b || bool_decide (winner b = NoColor))
  && forallb wf_commandb (history b).

(** ** The stages of [MovePiece] *)

(** The guards of [MovePiece] up to [if (!moveLegal) return Invalid]: the
    game is running, both coordinates are in bounds, [piece] stands on the
    source square, belongs to the side to move and generates [t]. *)
Definition move_ready (f t : Vector2Int) (b : Board) (piece : Piece) : Prop :=
  gameOver b = false
  /\ InBounds (x f) (y f) = true /\ InBounds (x t) (y t) = true
  /\ cell (squares b) (x f) (y f) = Some piece
  /\ color piece = currentTurn b
  /\ In t (GetValidMoves piece (squares b)).

(** The moving piece after [piece->boardPosition = to; piece->hasMoved = true]. *)
Definition moved_piece (piece : Piece) (t : Vector2Int) : Piece :=
  set_hasMoved (set_boardPosition piece t) true.

(** The grid when [MovePiece] reaches [if (IsInCheck(previousTurn))]. *)
Definition apply_move (sq : Grid) (piece : Piece) (f t : Vector2Int) : Grid :=
  let sq := put sq (x t) (y t) None in
  let sq := put sq (x f) (y f) (Some (moved_piece piece t)) in
  let sq := move_cell sq (x f) (y f) (x t) (y t) in
  let sq := put sq (x f) (y f) None in
  if IsPromotion (moved_piece piece t) then HandlePromotion t sq else sq.

(** The three statements of the branch that takes an illegal move back. *)
Definition revert_move (sq : Grid) (f t : Vector2Int)
    (originalTarget : option Piece) (originalPos : Vector2Int) : Grid :=
  let sq := move_cell sq (x t) (y t) (x f) (y f) in
  let sq := modify sq (x f) (y f) (fun p => set_boardPosition p originalPos) in
  put sq (x t) (y t) originalTarget.

(** The piece that stands on the target square after the move is applied:
    the moved piece, or the new queen when the move promotes. *)
Definition landed_piece (piece : Piece) (t : Vector2Int) : Piece :=
  if IsPromotion (moved_piece piece t) then newPiece Queen (color piece) t
  else moved_piece piece t.

(** The final [if]/[else if] chain of [MovePiece]. *)
Definition classify (inCheck hasMoves : bool) : MoveResult :=
  if inCheck && negb hasMoves then Checkmate
  else if negb inCheck && negb hasMoves then Stalemate
  else if inCheck then Check
  else Success.

(** The record pushed on the history stack. *)
Definition move_command (b : Board) (piece : Piece) (f t : Vector2Int) : MoveCommand :=
  mkMoveCommand f t piece (cell (squares b) (x t) (y t)) (hasMoved piece)
                (IsPromotion (moved_piece piece t)) (currentTurn b).

(** The board a committed move leaves, before the game-over flags are set. *)
Definition committed (b : Board) (piece : Piece) (f t : Vector2Int) : Board :=
  mkBoard (apply_move (squares b) piece f t) (flip_turn (currentTurn b))
          (gameOver b) (winner b) (move_command b piece f t :: history b).

(** ** Colours, in the words of the specification *)

(** The opposing colour of a side. *)
Definition opposite (c : PieceColor) : PieceColor :=
  match c with
  | White => Black
  | Black => White
  | NoColor => NoColor
  end.

(** ** Pawn moves, in the words of the specification *)

(** The forward direction of a pawn: rank -1 for White, rank +1 for Black. *)
Definition pawn_forward (c : PieceColor) : Z :=
  match c with
  | White => -1
  | Black => 1
  | NoColor => 0
  end.

(** The starting rank of a pawn: rank 6 for White, rank 1 for Black. *)
Definition pawn_start_rank (c : PieceColor) : Z :=
  match c with
  | White => 6
  | Black => 1
  | NoColor => -1
  end.

(** The squares a pawn of colour [c] on square [(cx, cy)] may go to. *)
Definition pawn_target (sq : Grid) (c : PieceColor) (cx cy tx ty : Z) : Prop :=
  let d := pawn_forward c in
  (tx = cx /\ ty = cy + d /\ InBounds tx ty = true /\ cell sq tx ty = None)
  \/ (tx = cx /\ ty = cy + 2 * d /\ cy = pawn_start_rank c
      /\ cell sq cx (cy + d) = None /\ cell sq tx ty = None)
  \/ ((tx = cx - 1 \/ tx = cx + 1) /\ ty = cy + d /\ InBounds tx ty = true
      /\ exists q, cell sq tx ty = Some q /\ color q = opposite c).

(** ** Legal moves, in the words of the specification *)

(** The simulated application of a move: the piece [p] of square [(cx, cy)]
    is relocated to [mv], replacing whatever stood there, and its own square
    becomes empty. *)
Definition relocate (sq : Grid) (cx cy : Z) (p : Piece) (mv : Vector2Int) : Grid :=
  put (put sq cx cy None) (x mv) (y mv) (Some (set_boardPosition p mv)).

(** Some piece of colour [c] has a pseudo-legal move whose simulated
    application leaves the king of colour [c] not in check. *)
Definition has_legal_move (c : PieceColor) (sq : Grid) : Prop :=
  exists cx cy p mv,
    InBounds cx cy = true /\ cell sq cx cy = Some p /\ color p = c
    /\ In mv (GetValidMoves p sq)
    /\ IsInCheck c (relocate sq cx cy p mv) = false.

(** The same search as a boolean, square by square. *)
Definition legal_from (c : PieceColor) (sq : Grid) (xy : Z * Z) : bool :=
  match cell sq (fst xy) (snd xy) with
  | Some p =>
      bool_decide (color p = c)
      && existsb (fun mv => negb (IsInCheck c (simulate sq (fst xy) (snd xy) mv)))
                 (GetValidMoves p sq)
  | None => false
  end.

(** No king of colour [c] stands on the board. *)
Definition no_king (c : PieceColor) (sq : Grid) : Prop :=
  forall cx cy p, InBounds cx cy = true -> cell sq cx cy = Some p ->
    ~ (type p = King /\ color p = c).

(** The executable form of [no_king]. *)
Definition no_kingb (c : PieceColor) (sq : Grid) : bool :=
  forallb (fun xy => negb (is_king_of c (cell sq (fst xy) (snd xy)))) board_cells.

(** ** Further notions used to state properties *)

(** The direction table of a sliding piece. *)
Definition dirs_of (t : PieceType) : list (Z * Z) :=
  match t with
  | Rook => rook_dirs
  | Bishop => bishop_dirs
  | Queen => queen_dirs
  | _ => []
  end.

(** What the check test of colour [c] can see of a square: whether it is
    occupied, the colour of the occupant, whether the occupant is a king, and
    all of the occupant when it is not of colour [c]. *)
Definition cell_alike (c : PieceColor) (o1 o2 : option Piece) : Prop :=
  match o1, o2 with
  | None, None => True
  | Some p1, Some p2 =>
      color p1 = color p2
      /\ (type p1 = King <-> type p2 = King)
      /\ (color p1 <> c -> p1 = p2)
  | _, _ => False
  end.

Definition alike (c : PieceColor) (sq1 sq2 : Grid) : Prop :=
  forall cx cy, InBounds cx cy = true -> cell_alike c (cell sq1 cx cy) (cell sq2 cx cy).

(** [n] calls of [UndoLastMove] in a row. *)
Fixpoint undo_n (n : nat) (b : Board) : Board :=
  match n with
  | O => b
  | S n' => undo_n n' (snd (UndoLastMove b))
  end.

(** The piece [Initialize] puts on square [(cx, cy)] of ranks 0, 1, 6 and
    7: black pawns on rank 1, white pawns on rank 6, and the back rank of
    each side in the order rook, knight, bishop, queen, king, bishop, knight,
    rook. *)
Definition initial_piece (cx cy : Z) : option Piece :=
  if cy =? 1 then Some (mkPiece Pawn Black (mkVector2Int cx cy) false)
  else if cy =? 6 then Some (mkPiece Pawn White (mkVector2Int cx cy) false)
  else if cy =? 0 then
    (fun t => mkPiece t Black (mkVector2Int cx cy) false) <$> back_rank !! Z.to_nat cx
  else if cy =? 7 then
    (fun t => mkPiece t White (mkVector2Int cx cy) false) <$> back_rank !! Z.to_nat cx
  else None.

(** ** [ChessGame]: the handling of input

    [ChessGame::Update] reads the keyboard and the mouse through raylib and
    calls into the board.  What raylib answers in one frame is the [Input]
    record; the texture member and the drawing functions are left out. *)

Definition TILE_SIZE : Z := 80.

Module ChessGame.

(** The answers of [IsKeyPressed(KEY_U)], [IsMouseButtonPressed(MOUSE_LEFT_BUTTON)],
    [GetMouseX()] and [GetMouseY()] in one frame. *)
Record Input : Set := mkInput {
  keyU : bool;
  mouseLeft : bool;
  mouseX : Z;
  mouseY : Z
}.

Record t : Type := mk {
  board : Board;
  selectedSquare : Vector2Int;
  pieceSelected : bool;
  statusMessage : string
}.

(** [ChessGame::ChessGame()] *)
Definition new : t := mk newBoard (mkVector2Int (-1) (-1)) false EmptyString.

(** [ChessGame::Init], without the loading of the sprite sheet. *)
Definition Init (g : t) : t :=
  mk (Initialize (board g)) (selectedSquare g) (pieceSelected g) (statusMessage g).

(** [result == Success || result == Check || result == Checkmate] *)
Definition move_done (r : MoveResult) : bool :=
  bool_decide (r = Success) || bool_decide (r = Check) || bool_decide (r = Checkmate).

(** [ChessGame::Update].  The divisions of the mouse coordinates are C++
    integer divisions, which truncate toward zero. *)
Definition Update (inp : Input) (g : t) : t :=
  let b := board g in
  if gameOver b then
    mk b (selectedSquare g) (pieceSelected g)
       (if bool_decide (winner b = NoColor) then "Stalemate! Game ended in a draw."
        else if bool_decide (winner b = White) then "Checkmate! White wins!"
        else "Checkmate! Black wins!")
  else if keyU inp then
    let '(ok, b') := UndoLastMove b in
    if ok then mk b' (mkVector2Int (-1) (-1)) false "Undo successful!"
    else mk b' (selectedSquare g) (pieceSelected g) "No moves to undo!"
  else if mouseLeft inp then
    let col := Z.quot (mouseX inp) TILE_SIZE in
    let row := Z.quot (mouseY inp) TILE_SIZE in
    let clickedPos := mkVector2Int col row in
    if negb (pieceSelected g) then
      match GetPieceAt clickedPos b with
      | Some p =>
          if bool_decide (color p = currentTurn b) then mk b clickedPos true EmptyString
          else mk b (selectedSquare g) (pieceSelected g) EmptyString
      | None => mk b (selectedSquare g) (pieceSelected g) EmptyString
      end
    else
      let '(result, b') := MovePiece (selectedSquare g) clickedPos b in
      if move_done result then
        mk b' (mkVector2Int (-1) (-1)) false
           (if bool_decide (result = Check) then
              if bool_decide (currentTurn b' = White) then "White is in check!"
              else "Black is in check!"
            else EmptyString)
      else if v2_eqb clickedPos (selectedSquare g) then
        mk b' (mkVector2Int (-1) (-1)) false EmptyString
      else
        match GetPieceAt clickedPos b' with
        | Some p =>
            if bool_decide (color p = currentTurn b')
            then mk b' clickedPos (pieceSelected g) EmptyString
            else mk b' (selectedSquare g) (pieceSelected g) EmptyString
        | None => mk b' (selectedSquare g) (pieceSelected g) EmptyString
        end
  else mk b (selectedSquare g) (pieceSelected g) EmptyString.

(** The frames of the main loop: one call of [Update] per input. *)
Fixpoint run (inps : list Input) (g : t) : t :=
  match inps with
  | [] => g
  | inp :: rest => run rest (Update inp g)
  end.

(** While a game is running, a selection points at a piece of the side to
    move. *)
Definition selection_ok (g : t) : Prop :=
  pieceSelected g = true -> gameOver (board g) = false ->
  exists p, GetPieceAt (selectedSquare g) (board g) = Some p
            /\ color p = currentTurn (board g).

End ChessGame.

(** A game after [Init], the game after the fool's mate, and a few inputs:
    clicks inside the squares (4, 6) and (4, 4), a click in the status bar
    below the board, and the U key. *)
Definition started_game : ChessGame.t := ChessGame.Init ChessGame.new.

Definition mated_game : ChessGame.t :=
  ChessGame.mk (snd (MovePiece (sq_of 3 0) (sq_of 7 4) fools_mate_board))
               (mkVector2Int (-1) (-1)) false EmptyString.

Definition click_e2 : ChessGame.Input := ChessGame.mkInput false true 350 500.
Definition click_e4 : ChessGame.Input := ChessGame.mkInput false true 330 390.
Definition click_status_bar : ChessGame.Input := ChessGame.mkInput false true 100 700.
Definition press_U : ChessGame.Input := ChessGame.mkInput true false 0 0.

(** * Properties *)

(** ** The grid as an array *)

Lemma InBounds_spec cx cy :
  InBounds cx cy = true <-> 0 <= cx < 8 /\ 0 <= cy < 8.
Proof. unfold InBounds, BOARD_SIZE. lia. Qed.

Lemma put_shape sq cx cy v : grid_shape sq -> grid_shape (put sq cx cy v).
Proof.
  intros [Hl Hr]. split.
  - unfold put. by rewrite length_alter.
  - unfold put. rewrite Forall_lookup in Hr |- *. intros i row.
    destruct (decide (Z.to_nat cy = i)) as [<-|Hne].
    + rewrite list_lookup_alter_eq. destruct (sq !! Z.to_nat cy) as [r|] eqn:E; simpl; [|done].
      intros [= <-]. rewrite length_insert. eauto.
    + rewrite list_lookup_alter_ne by done. eauto.
Qed.

Lemma cell_put_eq sq cx cy v :
  grid_shape sq -> InBounds cx cy = true -> cell (put sq cx cy v) cx cy = v.
Proof.
  intros [Hl Hr] Hb. apply InBounds_spec in Hb. unfold cell, put.
  rewrite list_lookup_alter_eq.
  destruct (sq !! Z.to_nat cy) as [r|] eqn:E; simpl.
  - rewrite list_lookup_insert_eq; [done|].
    rewrite Forall_lookup in Hr. rewrite (Hr _ _ E). unfold BOARD_SIZE. lia.
  - apply lookup_ge_None in E. unfold BOARD_SIZE in Hl. lia.
Qed.

Lemma cell_put_ne sq cx cy cx' cy' v :
  0 <= cx -> 0 <= cy -> 0 <= cx' -> 0 <= cy' -> (cx <> cx' \/ cy <> cy') ->
  cell (put sq cx cy v) cx' cy' = cell sq cx' cy'.
Proof.
  intros ? ? ? ? Hne. unfold cell, put.
  destruct (decide (Z.to_nat cy = Z.to_nat cy')) as [E|E].
  - rewrite <- E, list_lookup_alter_eq.
    destruct (sq !! Z.to_nat cy) as [r|]; simpl; [|done].
    rewrite list_lookup_insert_ne; [done|lia].
  - by rewrite list_lookup_alter_ne.
Qed.

Lemma cell_put sq cx cy cx' cy' v :
  grid_shape sq -> InBounds cx cy = true -> InBounds cx' cy' = true ->
  cell (put sq cx cy v) cx' cy'
  = if bool_decide (cx = cx' /\ cy = cy') then v else cell sq cx' cy'.
Proof.
  intros Hs Hb Hb'. case_bool_decide as E.
  - destruct E as [<- <-]. by apply cell_put_eq.
  - apply InBounds_spec in Hb, Hb'. apply cell_put_ne; lia.
Qed.

(** Two 8x8 grids with the same pointer in every square are equal. *)
Lemma grid_ext sq1 sq2 :
  grid_shape sq1 -> grid_shape sq2 ->
  (forall cx cy, InBounds cx cy = true -> cell sq1 cx cy = cell sq2 cx cy) ->
  sq1 = sq2.
Proof.
  intros [Hl1 Hr1] [Hl2 Hr2] H. apply list_eq. intros i.
  destruct (decide (i < 8)%nat) as [Hi|Hi].
  2:{ rewrite !(proj2 (lookup_ge_None _ _)); [done| |]; unfold BOARD_SIZE in *; lia. }
  destruct (lookup_lt_is_Some_2 sq1 i) as [r1 E1]; [unfold BOARD_SIZE in *; lia|].
  destruct (lookup_lt_is_Some_2 sq2 i) as [r2 E2]; [unfold BOARD_SIZE in *; lia|].
  rewrite E1, E2. f_equal. apply list_eq. intros j.
  rewrite Forall_lookup in Hr1, Hr2.
  pose proof (Hr1 _ _ E1) as L1. pose proof (Hr2 _ _ E2) as L2.
  destruct (decide (j < 8)%nat) as [Hj|Hj].
  2:{ rewrite !(proj2 (lookup_ge_None _ _)); [done| |]; unfold BOARD_SIZE in *; lia. }
  destruct (lookup_lt_is_Some_2 r1 j) as [c1 F1]; [unfold BOARD_SIZE in *; lia|].
  destruct (lookup_lt_is_Some_2 r2 j) as [c2 F2]; [unfold BOARD_SIZE in *; lia|].
  specialize (H (Z.of_nat j) (Z.of_nat i)).
  unfold cell in H. rewrite !Nat2Z.id, E1, E2, F1, F2 in H.
  rewrite F1, F2. f_equal. apply H. apply InBounds_spec. lia.
Qed.

Lemma modify_shape sq cx cy f : grid_shape sq -> grid_shape (modify sq cx cy f).
Proof. intros. unfold modify. destruct (cell sq cx cy); auto using put_shape. Qed.

Lemma move_cell_shape sq sx sy dx dy :
  grid_shape sq -> grid_shape (move_cell sq sx sy dx dy).
Proof. intros. unfold move_cell. auto using put_shape. Qed.

Lemma empty_grid_shape : grid_shape empty_grid.
Proof. split; [reflexivity|]. vm_compute. repeat constructor. Qed.

Create HintDb grid.
#[local] Hint Resolve put_shape modify_shape move_cell_shape empty_grid_shape : grid.

Lemma cell_modify sq cx cy cx' cy' f :
  grid_shape sq -> InBounds cx cy = true -> InBounds cx' cy' = true ->
  cell (modify sq cx cy f) cx' cy'
  = if bool_decide (cx = cx' /\ cy = cy') then f <$> cell sq cx' cy' else cell sq cx' cy'.
Proof.
  intros Hs Hb Hb'. unfold modify.
  destruct (cell sq cx cy) as [p|] eqn:E.
  - rewrite cell_put by done. case_bool_decide as H; [|done].
    destruct H as [<- <-]. by rewrite E.
  - case_bool_decide as H; [|done]. destruct H as [<- <-]. by rewrite E.
Qed.

Lemma cell_move_cell sq sx sy dx dy cx' cy' :
  grid_shape sq -> InBounds sx sy = true -> InBounds dx dy = true ->
  InBounds cx' cy' = true ->
  cell (move_cell sq sx sy dx dy) cx' cy'
  = if bool_decide (dx = cx' /\ dy = cy') then cell sq sx sy
    else if bool_decide (sx = cx' /\ sy = cy') then None
    else cell sq cx' cy'.
Proof.
  intros Hs Hb1 Hb2 Hb'. unfold move_cell.
  rewrite cell_put by auto with grid.
  case_bool_decide; [done|]. by rewrite cell_put.
Qed.

(** ** Generated moves are valid targets *)

Section MoveGeneration.
Variable board : Grid.

Lemma step_to_CanMoveTo own nx ny mv :
  In mv (step_to board own nx ny) -> CanMoveTo board (x mv) (y mv) own = true.
Proof.
  unfold step_to, CanMoveTo. destruct (InBounds nx ny) eqn:Hb; [|intros []].
  destruct (cell board nx ny) as [q|] eqn:Hc.
  - destruct (negb (bool_decide (color q = own))) eqn:Hq; [|intros []].
    intros [<-|[]]. simpl. by rewrite Hb, Hc.
  - intros [<-|[]]. simpl. by rewrite Hb, Hc.
Qed.

Lemma ray_CanMoveTo own pos d steps mv :
  In mv (ray board own pos d steps) -> CanMoveTo board (x mv) (y mv) own = true.
Proof.
  induction steps as [|step rest IH]; simpl; [intros []|].
  destruct (InBounds _ _) eqn:Hb; simpl; [|intros []].
  destruct (cell board _ _) as [q|] eqn:Hc.
  - destruct (negb (bool_decide (color q = own))) eqn:Hq; [|intros []].
    intros [<-|[]]. unfold CanMoveTo. simpl. by rewrite Hb, Hc.
  - intros [<-|H]; [|by apply IH]. unfold CanMoveTo. simpl. by rewrite Hb, Hc.
Qed.

Lemma slide_CanMoveTo own pos dirs mv :
  In mv (slide board own pos dirs) -> CanMoveTo board (x mv) (y mv) own = true.
Proof.
  unfold slide. rewrite in_flat_map. intros (d & _ & H).
  by apply ray_CanMoveTo in H.
Qed.

Lemma is_null_true o : is_null o = true -> o = None.
Proof. by destruct o. Qed.

Lemma Pawn_CanMoveTo p mv :
  In mv (Pawn_GetValidMoves p board) -> CanMoveTo board (x mv) (y mv) (color p) = true.
Proof.
  unfold Pawn_GetValidMoves. cbv zeta. rewrite in_app_iff. intros [H|H].
  - destruct (InBounds _ _ && is_null _) eqn:E1; [|destruct H].
    apply andb_true_iff in E1 as [Hb Hn].
    destruct H as [<-|H].
    + unfold CanMoveTo. simpl. rewrite Hb.
      apply is_null_true in Hn. by rewrite Hn.
    + destruct (_ && is_null _) eqn:E2 in H; [|destruct H].
      apply andb_true_iff in E2 as [E2 Hn2]. apply andb_true_iff in E2 as [_ Hb2].
      destruct H as [<-|[]]. unfold CanMoveTo. simpl. rewrite Hb2.
      apply is_null_true in Hn2. by rewrite Hn2.
  - apply in_flat_map in H as (dx & _ & H).
    destruct (InBounds _ _) eqn:Hb; [|destruct H].
    destruct (cell board _ _) as [q|] eqn:Hc; [|destruct H].
    destruct (negb _) eqn:Hq; [|destruct H].
    destruct H as [<-|[]]. unfold CanMoveTo. simpl. by rewrite Hb, Hc.
Qed.

(** Every square a piece generates passes [Piece::CanMoveTo]: it is in
    bounds and empty or held by a piece of another colour. *)
Lemma GetValidMoves_CanMoveTo p mv :
  In mv (GetValidMoves p board) -> CanMoveTo board (x mv) (y mv) (color p) = true.
Proof.
  unfold GetValidMoves. destruct (type p).
  - intros [].
  - apply slide_CanMoveTo.
  - unfold Knight_GetValidMoves. rewrite in_flat_map. intros (j & _ & H).
    by apply step_to_CanMoveTo in H.
  - apply slide_CanMoveTo.
  - apply slide_CanMoveTo.
  - unfold King_GetValidMoves. rewrite in_flat_map. intros (dx & _ & H).
    apply in_flat_map in H as (dy & _ & H).
    destruct (_ && _); [destruct H|]. by apply step_to_CanMoveTo in H.
  - apply Pawn_CanMoveTo.
Qed.

Lemma GetValidMoves_InBounds p mv :
  In mv (GetValidMoves p board) -> InBounds (x mv) (y mv) = true.
Proof.
  intros H. apply GetValidMoves_CanMoveTo in H. unfold CanMoveTo in H.
  by destruct (InBounds _ _).
Qed.

(** A piece never generates the square it stands on. *)
Lemma GetValidMoves_not_own_square p cx cy mv :
  cell board cx cy = Some p -> In mv (GetValidMoves p board) ->
  x mv <> cx \/ y mv <> cy.
Proof.
  intros Hc H. apply GetValidMoves_CanMoveTo in H. unfold CanMoveTo in H.
  destruct (decide (x mv = cx)) as [Ex|]; [|by left].
  destruct (decide (y mv = cy)) as [Ey|]; [|by right].
  rewrite Ex, Ey, Hc in H. destruct (InBounds cx cy); simpl in H; [|done].
  rewrite bool_decide_eq_true_2 in H by done. done.
Qed.
End MoveGeneration.

(** ** Simulation and restoration in [HasLegalMoves] *)

Ltac cell_norm :=
  repeat first
    [ rewrite cell_put by auto 20 with grid
    | rewrite cell_modify by auto 20 with grid
    | rewrite cell_move_cell by auto 20 with grid ].

Lemma set_boardPosition_id p : set_boardPosition p (boardPosition p) = p.
Proof. by destruct p. Qed.

Lemma set_boardPosition_twice p a b :
  set_boardPosition (set_boardPosition p a) b = set_boardPosition p b.
Proof. done. Qed.

Section Simulation.
Variables (sq : Grid) (cx cy : Z) (p : Piece) (mv : Vector2Int).
Hypothesis Hshape : grid_shape sq.
Hypothesis Hxy : InBounds cx cy = true.
Hypothesis Hp : cell sq cx cy = Some p.
Hypothesis Hmv : InBounds (x mv) (y mv) = true.
Hypothesis Hne : x mv <> cx \/ y mv <> cy.

(** The simulated grid: the piece stands on the target square with its
    position member updated, its own square is empty, and every other
    square is as before. *)
Lemma cell_simulate cx' cy' :
  InBounds cx' cy' = true ->
  cell (simulate sq cx cy mv) cx' cy'
  = if bool_decide (x mv = cx' /\ y mv = cy') then Some (set_boardPosition p mv)
    else if bool_decide (cx = cx' /\ cy = cy') then None
    else cell sq cx' cy'.
Proof using Hshape Hxy Hp Hmv Hne.
  intros Hb'. unfold simulate. cell_norm.
  repeat case_bool_decide; destruct_and?; simplify_eq; try lia; try done.
  by rewrite Hp.
Qed.

Lemma simulate_shape : grid_shape (simulate sq cx cy mv).
Proof using Hshape. unfold simulate. auto with grid. Qed.

(** The restoration after the check test gives back the grid exactly. *)
Lemma restore_simulate :
  restore (simulate sq cx cy mv) cx cy mv (cell sq (x mv) (y mv)) (boardPosition p) = sq.
Proof using Hshape Hxy Hp Hmv Hne.
  pose proof simulate_shape as Hs.
  apply grid_ext; [unfold restore; auto with grid | done |].
  intros cx' cy' Hb'. unfold restore. cell_norm. rewrite !cell_simulate by done.
  repeat case_bool_decide; destruct_and?; simplify_eq; try lia; try done.
  simpl. by rewrite set_boardPosition_twice, set_boardPosition_id.
Qed.

Lemma try_move_frame c :
  try_move c cx cy mv sq = (IsInCheck c (simulate sq cx cy mv), sq).
Proof using Hshape Hxy Hp Hmv Hne.
  unfold try_move. apply InBounds_spec in Hxy as Hxy', Hmv as Hmv'.
  rewrite cell_put_ne by lia. rewrite Hp. by rewrite restore_simulate.
Qed.
End Simulation.

Lemma board_cells_spec cx cy : In (cx, cy) board_cells <-> InBounds cx cy = true.
Proof.
  unfold board_cells. rewrite in_flat_map, InBounds_spec. split.
  - intros (r & Hr & H). apply in_map_iff in H as (c & [= <- <-] & Hc).
    apply list_elem_of_In, elem_of_seqZ in Hr, Hc. unfold BOARD_SIZE in *. lia.
  - intros [Hx Hy]. exists cy. split.
    + apply list_elem_of_In, elem_of_seqZ. unfold BOARD_SIZE. lia.
    + apply in_map_iff. exists cx. split; [done|].
      apply list_elem_of_In, elem_of_seqZ. unfold BOARD_SIZE. lia.
Qed.

Lemma board_cells_InBounds xy : In xy board_cells -> InBounds (fst xy) (snd xy) = true.
Proof. destruct xy. apply board_cells_spec. Qed.

Section LegalMoveSearch.
Variables (c : PieceColor) (sq : Grid).
Hypothesis Hshape : grid_shape sq.

Lemma try_moves_frame cx cy p moves :
  InBounds cx cy = true -> cell sq cx cy = Some p ->
  (forall mv, In mv moves -> In mv (GetValidMoves p sq)) ->
  try_moves c cx cy moves sq
  = (existsb (fun mv => negb (IsInCheck c (simulate sq cx cy mv))) moves, sq).
Proof using Hshape.
  intros Hxy Hp. induction moves as [|mv rest IH]; intros Hin; [done|].
  simpl. rewrite (try_move_frame sq cx cy p mv); try done.
  - destruct (IsInCheck c (simulate sq cx cy mv)); simpl; [|done].
    apply IH. intros; apply Hin; by right.
  - apply (GetValidMoves_InBounds sq p), Hin. by left.
  - apply (GetValidMoves_not_own_square sq p); [done|]. apply Hin. by left.
Qed.

Lemma scan_legal_frame cells :
  (forall xy, In xy cells -> InBounds (fst xy) (snd xy) = true) ->
  scan_legal c cells sq = (existsb (legal_from c sq) cells, sq).
Proof using Hshape.
  induction cells as [|xy rest IH]; intros Hin; [done|].
  simpl. unfold legal_from at 1.
  assert (Hrest : scan_legal c rest sq = (existsb (legal_from c sq) rest, sq)).
  { apply IH. intros; apply Hin; by right. }
  destruct (cell sq (fst xy) (snd xy)) as [p|] eqn:Hp; [|done].
  case_bool_decide; [|done]. simpl.
  rewrite (try_moves_frame _ _ p); [|apply Hin; by left|done|done].
  destruct (existsb _ (GetValidMoves p sq)); [done|]. by rewrite Hrest.
Qed.

(** On the simulated grid the relocated piece is all that changed. *)
Lemma simulate_relocate cx cy p mv :
  InBounds cx cy = true -> cell sq cx cy = Some p ->
  In mv (GetValidMoves p sq) ->
  simulate sq cx cy mv = relocate sq cx cy p mv.
Proof using Hshape.
  intros Hxy Hp Hin.
  pose proof (GetValidMoves_InBounds sq p mv Hin) as Hmv.
  pose proof (GetValidMoves_not_own_square sq p cx cy mv Hp Hin) as Hne.
  apply grid_ext; [by apply simulate_shape | unfold relocate; auto with grid |].
  intros cx' cy' Hb'. rewrite (cell_simulate sq cx cy p) by done.
  unfold relocate. cell_norm. done.
Qed.

Lemma existsb_legal_from :
  existsb (legal_from c sq) board_cells = true <-> has_legal_move c sq.
Proof using Hshape.
  rewrite existsb_exists. split.
  - intros ([cx cy] & Hin & H). apply board_cells_spec in Hin.
    unfold legal_from in H. simpl in H.
    destruct (cell sq cx cy) as [p|] eqn:Hp; [|done].
    apply andb_true_iff in H as [Hc H]. apply bool_decide_eq_true in Hc.
    apply existsb_exists in H as (mv & Hmv & H). apply negb_true_iff in H.
    exists cx, cy, p, mv. repeat split; try done.
    by rewrite <- (simulate_relocate cx cy p mv).
  - intros (cx & cy & p & mv & Hxy & Hp & Hc & Hmv & H).
    exists (cx, cy). split; [by apply board_cells_spec|].
    unfold legal_from. simpl. rewrite Hp. apply andb_true_iff. split.
    + by apply bool_decide_eq_true.
    + apply existsb_exists. exists mv. split; [done|].
      rewrite (simulate_relocate cx cy p mv) by done. by rewrite H.
Qed.
End LegalMoveSearch.

Lemma HasLegalMoves_frame c b :
  grid_shape (squares b) ->
  HasLegalMoves c b = (existsb (legal_from c (squares b)) board_cells, b).
Proof.
  intros Hs. unfold HasLegalMoves.
  rewrite scan_legal_frame by auto using board_cells_InBounds.
  by destruct b.
Qed.

(** ** The stages of [MovePiece] *)

Lemma v2_eqb_eq a b : v2_eqb a b = true <-> a = b.
Proof.
  unfold v2_eqb. destruct a, b; simpl. rewrite andb_true_iff, !Z.eqb_eq.
  split; [intros [-> ->]; done | intros [= -> ->]; done].
Qed.

Lemma existsb_v2_eqb t moves :
  existsb (fun m => v2_eqb m t) moves = true <-> In t moves.
Proof.
  rewrite existsb_exists. split.
  - intros (m & Hin & E). apply v2_eqb_eq in E. by subst.
  - intros Hin. exists t. split; [done|]. by apply v2_eqb_eq.
Qed.

Lemma Clone_fmap (o : option Piece) : Clone <$> o = o.
Proof. by destruct o. Qed.

Lemma HandlePromotion_shape pos sq : grid_shape sq -> grid_shape (HandlePromotion pos sq).
Proof. intros. unfold HandlePromotion. destruct (cell sq _ _); auto with grid. Qed.

Lemma apply_move_shape sq piece f t : grid_shape sq -> grid_shape (apply_move sq piece f t).
Proof.
  intros. unfold apply_move. cbv zeta.
  destruct (IsPromotion _); [apply HandlePromotion_shape|]; auto with grid.
Qed.

Lemma revert_move_shape sq f t o pos : grid_shape sq -> grid_shape (revert_move sq f t o pos).
Proof. intros. unfold revert_move. auto with grid. Qed.

#[local] Hint Resolve HandlePromotion_shape apply_move_shape revert_move_shape : grid.

Section MovePieceStages.
Variables (f t : Vector2Int) (b : Board).

(** A move is rejected with the board untouched unless it passes the guards. *)
Lemma MovePiece_rejected :
  (forall piece, ~ move_ready f t b piece) -> MovePiece f t b = (Invalid, b).
Proof.
  intros Hno. unfold MovePiece.
  destruct (gameOver b) eqn:Hg; [reflexivity|].
  destruct (InBounds (x f) (y f)) eqn:Hf; [|reflexivity].
  destruct (InBounds (x t) (y t)) eqn:Ht; [|reflexivity]. cbn [negb orb].
  destruct (cell (squares b) (x f) (y f)) as [piece|] eqn:Hp; [|reflexivity].
  case_bool_decide as Hc; [|reflexivity]. cbn [negb].
  destruct (existsb _ _) eqn:Hl; [|reflexivity]. cbn [negb].
  apply existsb_v2_eqb in Hl. destruct (Hno piece). by repeat split.
Qed.

Variable piece : Piece.
Hypothesis Hready : move_ready f t b piece.

(** The move is applied and then found to leave the mover in check. *)
Lemma MovePiece_self_check :
  IsInCheck (currentTurn b) (apply_move (squares b) piece f t) = true ->
  MovePiece f t b
  = (Invalid,
     set_squares b (revert_move (apply_move (squares b) piece f t) f t
                                (cell (squares b) (x t) (y t)) (boardPosition piece))).
Proof using Hready.
  destruct Hready as (Hg & Hf & Ht & Hp & Hc & Hl). intros Hchk.
  unfold MovePiece. rewrite Hg, Hf, Ht, Hp. cbn [negb orb].
  rewrite bool_decide_eq_true_2 by exact Hc. cbn [negb].
  rewrite (proj2 (existsb_v2_eqb _ _) Hl). cbn [negb]. cbv zeta.
  fold (moved_piece piece t). fold (apply_move (squares b) piece f t).
  rewrite Hchk. reflexivity.
Qed.

(** The move is applied, the mover's king is safe, and the move commits. *)
Lemma MovePiece_commit :
  grid_shape (squares b) ->
  IsInCheck (currentTurn b) (apply_move (squares b) piece f t) = false ->
  let sq := apply_move (squares b) piece f t in
  let turn := flip_turn (currentTurn b) in
  let b1 := mkBoard sq turn (gameOver b) (winner b) (move_command b piece f t :: history b) in
  let inCheck := IsInCheck turn sq in
  let hasMoves := existsb (legal_from turn sq) board_cells in
  MovePiece f t b
  = (classify inCheck hasMoves,
     if negb hasMoves then set_result b1 true (if inCheck then flip_turn turn else NoColor)
     else b1).
Proof using Hready.
  destruct Hready as (Hg & Hf & Ht & Hp & Hc & Hl). intros Hs Hchk. cbv zeta.
  unfold MovePiece. rewrite Hg, Hf, Ht, Hp. cbn [negb orb].
  rewrite bool_decide_eq_true_2 by exact Hc. cbn [negb].
  rewrite (proj2 (existsb_v2_eqb _ _) Hl). cbn [negb]. cbv zeta.
  fold (moved_piece piece t). fold (apply_move (squares b) piece f t).
  rewrite Hchk. cbn [squares currentTurn].
  rewrite HasLegalMoves_frame by (cbn [squares]; auto with grid).
  rewrite Clone_fmap. unfold Clone. fold (move_command b piece f t).
  unfold classify. cbn [squares currentTurn].
  generalize (IsInCheck (flip_turn (currentTurn b)) (apply_move (squares b) piece f t)).
  generalize (existsb (legal_from (flip_turn (currentTurn b))
                                  (apply_move (squares b) piece f t)) board_cells).
  intros [] []; cbn [negb andb]; reflexivity.
Qed.
End MovePieceStages.

(** The grid after the move is applied: the landed piece on the target
    square, the source square empty, every other square untouched. *)
Lemma cell_apply_move sq piece f t cx cy :
  grid_shape sq ->
  InBounds (x f) (y f) = true -> InBounds (x t) (y t) = true ->
  x t <> x f \/ y t <> y f ->
  InBounds cx cy = true ->
  cell (apply_move sq piece f t) cx cy
  = if bool_decide (x t = cx /\ y t = cy) then Some (landed_piece piece t)
    else if bool_decide (x f = cx /\ y f = cy) then None
    else cell sq cx cy.
Proof.
  intros Hs Hf Ht Hne Hb. unfold apply_move, landed_piece. cbv zeta.
  destruct (IsPromotion (moved_piece piece t)) eqn:Hpr.
  - unfold HandlePromotion. cell_norm.
    rewrite (bool_decide_eq_false_2 (x f = x t /\ y f = y t)) by lia.
    rewrite (bool_decide_eq_true_2 (x t = x t /\ y t = y t)) by done.
    rewrite (bool_decide_eq_true_2 (x f = x f /\ y f = y f)) by done.
    cbn [CreatePiece]. cell_norm.
    repeat case_bool_decide; destruct_and?; simplify_eq; try lia; try done.
  - cell_norm.
    repeat case_bool_decide; destruct_and?; simplify_eq; try lia; try done.
Qed.

Lemma move_ready_dec f t b :
  (exists piece, move_ready f t b piece) \/ (forall piece, ~ move_ready f t b piece).
Proof.
  unfold move_ready.
  destruct (gameOver b); [right; intros ? (? & _); done|].
  destruct (InBounds (x f) (y f)); [|right; intros ? (_ & ? & _); done].
  destruct (InBounds (x t) (y t)); [|right; intros ? (_ & _ & ? & _); done].
  destruct (cell (squares b) (x f) (y f)) as [piece|];
    [|right; intros ? (_ & _ & _ & ? & _); done].
  destruct (decide (color piece = currentTurn b)) as [Hc|Hc];
    [|right; intros ? (_ & _ & _ & [= <-] & ? & _); done].
  destruct (existsb (fun m => v2_eqb m t) (GetValidMoves piece (squares b))) eqn:Hl.
  - left. exists piece. apply existsb_v2_eqb in Hl. by repeat split.
  - right. intros ? (_ & _ & _ & [= <-] & _ & Hin).
    apply existsb_v2_eqb in Hin. congruence.
Qed.

Lemma move_ready_distinct f t b piece :
  move_ready f t b piece -> x t <> x f \/ y t <> y f.
Proof.
  intros (_ & _ & _ & Hp & _ & Hl).
  exact (GetValidMoves_not_own_square _ _ _ _ _ Hp Hl).
Qed.

(** Every call of [MovePiece] that does not return [Invalid] went through
    the commit stage. *)
Lemma MovePiece_committed f t b r b' :
  grid_shape (squares b) ->
  MovePiece f t b = (r, b') -> r <> Invalid ->
  exists piece inCheck hasMoves,
    move_ready f t b piece
    /\ IsInCheck (currentTurn b) (apply_move (squares b) piece f t) = false
    /\ IsInCheck (flip_turn (currentTurn b)) (apply_move (squares b) piece f t) = inCheck
    /\ existsb (legal_from (flip_turn (currentTurn b)) (apply_move (squares b) piece f t))
               board_cells = hasMoves
    /\ r = classify inCheck hasMoves
    /\ b' = if negb hasMoves
            then set_result (committed b piece f t) true
                   (if inCheck then flip_turn (flip_turn (currentTurn b)) else NoColor)
            else committed b piece f t.
Proof.
  intros Hs Hm Hr.
  destruct (move_ready_dec f t b) as [[piece Hready]|Hno].
  2:{ rewrite MovePiece_rejected in Hm by done. congruence. }
  destruct (IsInCheck (currentTurn b) (apply_move (squares b) piece f t)) eqn:Hchk.
  { rewrite (MovePiece_self_check f t b piece) in Hm by done. congruence. }
  rewrite (MovePiece_commit f t b piece Hready Hs Hchk) in Hm.
  cbv zeta in Hm. injection Hm as <- <-.
  exists piece,
    (IsInCheck (flip_turn (currentTurn b)) (apply_move (squares b) piece f t)),
    (existsb (legal_from (flip_turn (currentTurn b)) (apply_move (squares b) piece f t))
             board_cells).
  split; [exact Hready|]. split; [exact Hchk|]. repeat split; reflexivity.
Qed.

(** An [Invalid] result leaves everything but [squares] alone. *)
Lemma MovePiece_Invalid_frame f t b b' :
  MovePiece f t b = (Invalid, b') ->
  currentTurn b' = currentTurn b /\ gameOver b' = gameOver b
  /\ winner b' = winner b /\ history b' = history b.
Proof.
  intros Hm.
  destruct (move_ready_dec f t b) as [[piece Hready]|Hno].
  2:{ rewrite MovePiece_rejected in Hm by done. by injection Hm as <-. }
  unfold MovePiece in Hm. destruct Hready as (Hg & Hf & Ht & Hp & Hc & Hl).
  rewrite Hg, Hf, Ht, Hp in Hm. cbn [negb orb] in Hm.
  rewrite bool_decide_eq_true_2 in Hm by exact Hc. cbn [negb] in Hm.
  rewrite (proj2 (existsb_v2_eqb _ _) Hl) in Hm. cbn [negb] in Hm. cbv zeta in Hm.
  fold (moved_piece piece t) in Hm. fold (apply_move (squares b) piece f t) in Hm.
  destruct (IsInCheck (currentTurn b) (apply_move (squares b) piece f t)).
  - injection Hm as <-. by rewrite Hg.
  - exfalso. revert Hm. cbn [squares currentTurn].
    generalize (IsInCheck (flip_turn (currentTurn b)) (apply_move (squares b) piece f t)).
    intros ic. destruct (HasLegalMoves _ _) as [hm b2].
    destruct ic, hm; cbn [negb andb]; congruence.
Qed.

(** ** The executable invariant checks are sound *)

Lemma grid_shapeb_sound sq : grid_shapeb sq = true -> grid_shape sq.
Proof.
  unfold grid_shapeb, grid_shape. rewrite andb_true_iff, bool_decide_eq_true.
  intros [Hl Hr]. split; [done|]. apply List.Forall_forall. intros row Hin.
  rewrite forallb_forall in Hr. apply Hr in Hin. by apply bool_decide_eq_true in Hin.
Qed.

Lemma piece_okb_sound cx cy p : piece_okb cx cy (Some p) = true -> piece_ok cx cy p.
Proof.
  unfold piece_okb, piece_ok. rewrite !andb_true_iff, !negb_true_iff, !bool_decide_eq_false.
  intros [[Hpos Hc] Ht]. apply v2_eqb_eq in Hpos. done.
Qed.

Lemma wf_gridb_sound sq : wf_gridb sq = true -> wf_grid sq.
Proof.
  unfold wf_gridb, wf_grid. rewrite andb_true_iff. intros [Hs Hc].
  split; [by apply grid_shapeb_sound|]. intros cx cy p Hb Hp.
  rewrite forallb_forall in Hc. apply board_cells_spec, Hc in Hb.
  cbn [fst snd] in Hb. rewrite Hp in Hb. by apply piece_okb_sound.
Qed.

Lemma wf_commandb_sound cmd : wf_commandb cmd = true -> wf_command cmd.
Proof.
  unfold wf_commandb, wf_command.
  rewrite !andb_true_iff, !negb_true_iff, !bool_decide_eq_false.
  intros [[[[[Hf Ht] Hc] Hty] Hcap] Hprev]. repeat split; try done.
  - intros E. rewrite H in Hcap. apply andb_true_iff in Hcap as [Hq _].
    apply negb_true_iff, bool_decide_eq_false in Hq. done.
  - intros E. rewrite H in Hcap. apply andb_true_iff in Hcap as [_ Hq].
    apply negb_true_iff, bool_decide_eq_false in Hq. done.
Qed.

Lemma wf_boardb_sound b : wf_boardb b = true -> wf_board b.
Proof.
  unfold wf_boardb, wf_board.
  rewrite !andb_true_iff, negb_true_iff, bool_decide_eq_false, orb_true_iff,
    bool_decide_eq_true.
  intros [[[Hg Hturn] Hw] Hh]. split; [|split; [|split]].
  - by apply wf_gridb_sound.
  - done.
  - intros E. destruct Hw; congruence.
  - apply List.Forall_forall. intros cmd Hin. rewrite forallb_forall in Hh.
    by apply wf_commandb_sound, Hh.
Qed.

Lemma wf_board_shape b : wf_board b -> grid_shape (squares b).
Proof. by intros [[Hs _] _]. Qed.

Lemma flip_turn_opposite c : c <> NoColor -> flip_turn c = opposite c.
Proof. by destruct c. Qed.

Lemma start_wf : wf_board start.
Proof. apply wf_boardb_sound. vm_compute. reflexivity. Qed.

(** ** The king scan *)

Lemma find_no_match {A} (g : A -> bool) (l : list A) :
  (forall a, In a l -> g a = false) -> find g l = None.
Proof.
  intros H. destruct (find g l) as [a|] eqn:E; [|done].
  apply find_some in E as [Hin Hg]. rewrite (H a Hin) in Hg. done.
Qed.

Lemma FindKing_no_king c sq : no_king c sq -> FindKing c sq = mkVector2Int (-1) (-1).
Proof.
  intros Hno. unfold FindKing. rewrite find_no_match; [done|].
  intros [cx cy] Hin. apply board_cells_spec in Hin. cbn [fst snd].
  unfold is_king_of. destruct (cell sq cx cy) as [p|] eqn:Hp; [|done].
  apply andb_false_iff. rewrite !bool_decide_eq_false.
  destruct (decide (type p = King)) as [Ht|]; [|by left]. right.
  intros Hc. by apply (Hno cx cy p).
Qed.

(** C9: on a board without a king of colour [c], [FindKing] yields the
    sentinel (-1, -1) and [IsInCheck c] returns false. *)
Theorem IsInCheck_no_king c sq :
  no_king c sq ->
  FindKing c sq = mkVector2Int (-1) (-1) /\ IsInCheck c sq = false.
Proof.
  intros Hno. split; [by apply FindKing_no_king|].
  unfold IsInCheck. by rewrite FindKing_no_king.
Qed.

(** ** Pawn moves *)

Lemma color_neq_opposite c q :
  c <> NoColor -> q <> NoColor -> (q <> c <-> q = opposite c).
Proof. destruct c, q; simpl; split; intros; congruence. Qed.

(** C7: a pawn standing on square [(cx, cy)] of a well-formed board
    generates exactly the squares of [pawn_target]: the single forward square
    when it is in bounds and empty, the double-step square when the pawn
    stands on its starting rank and both squares in front of it are empty,
    and each diagonal-forward square that is in bounds and holds a piece of
    the opposing colour. *)
Theorem Pawn_GetValidMoves_spec sq cx cy p tx ty :
  wf_grid sq -> InBounds cx cy = true ->
  cell sq cx cy = Some p -> type p = Pawn ->
  In (mkVector2Int tx ty) (GetValidMoves p sq) <-> pawn_target sq (color p) cx cy tx ty.
Proof.
  intros [Hs Hok] Hb Hp Hty.
  destruct (Hok cx cy p Hb Hp) as (Hpos & Hcol & _).
  unfold GetValidMoves. rewrite Hty. unfold Pawn_GetValidMoves, pawn_target.
  rewrite Hpos. cbn [x y]. cbv zeta. rewrite in_app_iff.
  assert (Hd : (if bool_decide (color p = White) then -1 else 1) = pawn_forward (color p)).
  { destruct (color p); done. }
  assert (Hr : (if bool_decide (color p = White) then 6 else 1) = pawn_start_rank (color p)).
  { destruct (color p); done. }
  rewrite Hd, Hr. clear Hd Hr.
  assert (Hfw : pawn_forward (color p) = 1 \/ pawn_forward (color p) = -1).
  { destruct (color p); simpl; auto. done. }
  assert (Hsr : InBounds cx (pawn_start_rank (color p) + 2 * pawn_forward (color p)) = true).
  { apply InBounds_spec in Hb. apply InBounds_spec.
    destruct (color p); simpl; try done; lia. }
  assert (Hsr1 : InBounds cx (pawn_start_rank (color p) + pawn_forward (color p)) = true).
  { apply InBounds_spec in Hb. apply InBounds_spec.
    destruct (color p); simpl; try done; lia. }
  set (d := pawn_forward (color p)) in *.
  set (r := pawn_start_rank (color p)) in *.
  assert (HF : In {| x := tx; y := ty |}
    (if InBounds cx (cy + d) && is_null (cell sq cx (cy + d))
     then {| x := cx; y := cy + d |}
      :: (if (cy =? r) && InBounds cx (cy + 2 * d) && is_null (cell sq cx (cy + 2 * d))
          then [{| x := cx; y := cy + 2 * d |}] else [])
     else [])
    <-> (tx = cx /\ ty = cy + d /\ InBounds tx ty = true /\ cell sq tx ty = None)
        \/ (tx = cx /\ ty = cy + 2 * d /\ cy = r
            /\ cell sq cx (cy + d) = None /\ cell sq tx ty = None)).
  { destruct (cell sq cx (cy + d)) as [q1|] eqn:E1; cbn [is_null].
    { rewrite andb_false_r. cbn [In]. split; [done|]. intros [H|H]; destruct_and?; simplify_eq. }
    rewrite andb_true_r.
    destruct (InBounds cx (cy + d)) eqn:B1.
    2:{ cbn [In]. split; [done|]. intros [H|H]; destruct_and?; simplify_eq; congruence. }
    destruct (Z.eqb_spec cy r) as [Er|Er]; cbn [andb].
    2:{ cbn [In]. split.
        - intros [[= <- <-]|[]]. by left.
        - intros [H|H]; destruct_and?; simplify_eq. by left. }
    subst cy. rewrite Hsr. cbn [andb].
    destruct (cell sq cx (r + 2 * d)) as [q2|] eqn:E2; cbn [is_null In].
    - split.
      + intros [[= <- <-]|[]]. by left.
      + intros [H|H]; destruct_and?; simplify_eq; try congruence. by left.
    - split.
      + intros [[= <- <-]|[[= <- <-]|[]]]; [by left|by right].
      + intros [H|H]; destruct_and?; simplify_eq; [by left|right; by left]. }
  assert (HC : forall dx,
    In {| x := tx; y := ty |}
       (if InBounds (cx + dx) (cy + d)
        then match cell sq (cx + dx) (cy + d) with
             | Some q => if negb (bool_decide (color q = color p))
                         then [{| x := cx + dx; y := cy + d |}] else []
             | None => []
             end
        else [])
    <-> tx = cx + dx /\ ty = cy + d /\ InBounds tx ty = true
        /\ exists q, cell sq tx ty = Some q /\ color q = opposite (color p)).
  { intros dx. destruct (InBounds (cx + dx) (cy + d)) eqn:B.
    2:{ split; [intros []|]. intros (-> & -> & B' & _). congruence. }
    destruct (cell sq (cx + dx) (cy + d)) as [q|] eqn:E.
    2:{ split; [intros []|]. intros (-> & -> & _ & q & E' & _). congruence. }
    destruct (Hok _ _ _ B E) as (_ & Hq & _).
    pose proof (color_neq_opposite (color p) (color q) Hcol Hq) as Hopp.
    case_bool_decide as Hc; cbn [negb In].
    - split; [intros []|]. intros (-> & -> & _ & q' & E' & Hq').
      rewrite E in E'. injection E' as <-. apply Hopp in Hq'. done.
    - split.
      + intros [[= <- <-]|[]]. repeat split; try done. exists q. split; [done|].
        by apply Hopp.
      + intros (-> & -> & _). by left. }
  cbn [flat_map]. rewrite app_nil_r, in_app_iff, HF, !HC.
  replace (cx + -1) with (cx - 1) by lia. tauto.
Qed.

(** ** Committed moves *)

Lemma classify_cases ic hm :
  classify ic hm
  = match ic, hm with
    | true, false => Checkmate
    | false, false => Stalemate
    | true, true => Check
    | false, true => Success
    end.
Proof. by destruct ic, hm. Qed.

(** What a committed move leaves in the members of the board. *)
Lemma MovePiece_committed_board f t b r b' :
  grid_shape (squares b) ->
  MovePiece f t b = (r, b') -> r <> Invalid ->
  exists piece,
    move_ready f t b piece
    /\ squares b' = apply_move (squares b) piece f t
    /\ currentTurn b' = flip_turn (currentTurn b)
    /\ history b' = move_command b piece f t :: history b.
Proof.
  intros Hs Hm Hr.
  destruct (MovePiece_committed f t b r b' Hs Hm Hr)
    as (piece & ic & hm & Hready & _ & _ & _ & _ & ->).
  exists piece. split; [done|]. by destruct (negb hm).
Qed.

(** C3: a call of [MovePiece] that does not return [Invalid] leaves a board
    on which the side that moved is not in check. *)
Theorem MovePiece_mover_not_in_check f t b r b' :
  grid_shape (squares b) ->
  MovePiece f t b = (r, b') -> r <> Invalid ->
  IsInCheck (currentTurn b) (squares b') = false.
Proof.
  intros Hs Hm Hr.
  destruct (MovePiece_committed f t b r b' Hs Hm Hr)
    as (piece & ic & hm & _ & Hchk & _ & _ & _ & ->).
  destruct (negb hm); exact Hchk.
Qed.

(** C4: after a committed move the result classifies the new side to move:
    [Checkmate], with [gameOver] set and the mover as [winner], when it is in
    check and has no legal move; [Stalemate], with [gameOver] set and no
    winner, when it is not in check and has no legal move; [Check] when it is
    in check and has a legal move; [Success] otherwise. *)
Theorem MovePiece_classification f t b r b' :
  wf_board b ->
  MovePiece f t b = (r, b') -> r <> Invalid ->
  let side := currentTurn b' in
  let inCheck := IsInCheck side (squares b') in
  (inCheck = true /\ ~ has_legal_move side (squares b') ->
     r = Checkmate /\ gameOver b' = true /\ winner b' = currentTurn b)
  /\ (inCheck = false /\ ~ has_legal_move side (squares b') ->
     r = Stalemate /\ gameOver b' = true /\ winner b' = NoColor)
  /\ (inCheck = true /\ has_legal_move side (squares b') -> r = Check)
  /\ (inCheck = false /\ has_legal_move side (squares b') -> r = Success).
Proof.
  intros Hwf Hm Hr. pose proof (wf_board_shape b Hwf) as Hs.
  destruct Hwf as (_ & Hturn & _).
  destruct (MovePiece_committed f t b r b' Hs Hm Hr)
    as (piece & ic & hm & _ & _ & Hic & Hhm & -> & Hb').
  pose proof (existsb_legal_from (flip_turn (currentTurn b))
                (apply_move (squares b) piece f t) (apply_move_shape _ _ _ _ Hs)) as Hlegal.
  rewrite Hhm in Hlegal.
  assert (Hsq : squares b' = apply_move (squares b) piece f t)
    by (rewrite Hb'; by destruct (negb hm)).
  assert (Hside : currentTurn b' = flip_turn (currentTurn b))
    by (rewrite Hb'; by destruct (negb hm)).
  assert (Hflip : flip_turn (flip_turn (currentTurn b)) = currentTurn b)
    by (by destruct (currentTurn b)).
  cbv zeta. rewrite Hside, Hsq, Hic, classify_cases.
  destruct hm, ic; cbn [negb] in Hb'; subst b';
    cbn [set_result gameOver winner];
    (split; [|split; [|split]]); intros [E Hl]; try discriminate E;
    try (destruct Hl; by apply Hlegal);
    try (apply Hlegal in Hl; discriminate Hl);
    repeat split; done.
Qed.

(** C5: after [Success], [Check] or [Checkmate] the side to move is the
    opposite of the side that was to move before the call; after [Invalid]
    it is the same. *)
Theorem MovePiece_turn_alternation f t b r b' :
  wf_board b ->
  MovePiece f t b = (r, b') ->
  (r = Success \/ r = Check \/ r = Checkmate -> currentTurn b' = opposite (currentTurn b))
  /\ (r = Invalid -> currentTurn b' = currentTurn b).
Proof.
  intros Hwf Hm. pose proof (wf_board_shape b Hwf) as Hs.
  destruct Hwf as (_ & Hturn & _). split.
  - intros Hr.
    assert (Hne : r <> Invalid) by (destruct Hr as [-> | [-> | ->]]; done).
    destruct (MovePiece_committed_board f t b r b' Hs Hm Hne) as (_ & _ & _ & -> & _).
    by apply flip_turn_opposite.
  - intros ->. by destruct (MovePiece_Invalid_frame f t b b' Hm) as (E & _).
Qed.

(** C10: when [MovePiece] returns [Stalemate], the side to move after the
    call is the opposite of the side to move before it, and that side is
    the stalemated one: it is not in check and has no legal move. *)
Theorem MovePiece_Stalemate_turn f t b b' :
  wf_board b ->
  MovePiece f t b = (Stalemate, b') ->
  currentTurn b' = opposite (currentTurn b)
  /\ IsInCheck (currentTurn b') (squares b') = false
  /\ ~ has_legal_move (currentTurn b') (squares b').
Proof.
  intros Hwf Hm. pose proof (wf_board_shape b Hwf) as Hs.
  destruct Hwf as (_ & Hturn & _).
  assert (Hne : Stalemate <> Invalid) by done.
  destruct (MovePiece_committed f t b _ b' Hs Hm Hne)
    as (piece & ic & hm & _ & _ & Hic & Hhm & Hr & Hb').
  pose proof (existsb_legal_from (flip_turn (currentTurn b))
                (apply_move (squares b) piece f t) (apply_move_shape _ _ _ _ Hs)) as Hlegal.
  rewrite Hhm in Hlegal. rewrite classify_cases in Hr.
  destruct ic, hm; try discriminate Hr. cbn [negb] in Hb'. subst b'.
  cbn [set_result committed squares currentTurn]. split; [by apply flip_turn_opposite|].
  split; [exact Hic|]. intros Hl. apply Hlegal in Hl. discriminate Hl.
Qed.

(** C8: a committed move that takes a White pawn to rank 0 or a Black pawn
    to rank 7 leaves on the target square a queen of the pawn's colour, as
    the factory builds it: positioned on that square and not yet moved. *)
Theorem MovePiece_promotes_to_queen f t b r b' p :
  grid_shape (squares b) ->
  MovePiece f t b = (r, b') -> r <> Invalid ->
  cell (squares b) (x f) (y f) = Some p -> type p = Pawn ->
  (color p = White /\ y t = 0) \/ (color p = Black /\ y t = 7) ->
  cell (squares b') (x t) (y t) = Some (mkPiece Queen (color p) t false).
Proof.
  intros Hs Hm Hr Hp Hty Hrank.
  destruct (MovePiece_committed_board f t b r b' Hs Hm Hr) as (piece & Hready & -> & _).
  pose proof (move_ready_distinct f t b piece Hready) as Hne.
  destruct Hready as (_ & Hf & Ht & Hp' & _).
  rewrite Hp in Hp'. injection Hp' as <-.
  rewrite cell_apply_move by done.
  rewrite bool_decide_eq_true_2 by done.
  unfold landed_piece, IsPromotion, moved_piece. cbn [type color boardPosition set_hasMoved set_boardPosition].
  rewrite Hty.
  destruct Hrank as [[-> ->]|[-> ->]]; reflexivity.
Qed.

(** ** [HasLegalMoves] *)

(** C6: [HasLegalMoves] leaves the board exactly as it found it, and it
    returns true exactly when some piece of the colour has a pseudo-legal
    move whose simulated application leaves that colour's king not in
    check. *)
Theorem HasLegalMoves_spec c b :
  grid_shape (squares b) ->
  snd (HasLegalMoves c b) = b
  /\ (fst (HasLegalMoves c b) = true <-> has_legal_move c (squares b)).
Proof.
  intros Hs. rewrite HasLegalMoves_frame by done. cbn [fst snd].
  split; [done|]. by apply existsb_legal_from.
Qed.

(** ** Undo *)

Lemma set_hasMoved_id p : set_hasMoved p (hasMoved p) = p.
Proof. by destruct p. Qed.

(** On a well-formed grid, undoing the record of a move on the grid the
    move left gives back the grid before the move. *)
Lemma Undo_apply_move sq piece f t g w h h' c :
  wf_grid sq ->
  InBounds (x f) (y f) = true -> InBounds (x t) (y t) = true ->
  x t <> x f \/ y t <> y f ->
  cell sq (x f) (y f) = Some piece ->
  squares (Undo (mkMoveCommand f t piece (cell sq (x t) (y t)) (hasMoved piece) c
                               (color piece))
                (mkBoard (apply_move sq piece f t) w g h h'))
  = sq.
Proof.
  intros [Hs Hok] Hf Ht Hne Hp.
  unfold Undo. cbn [squares from to movedPiece capturedPiece wasMoved].
  apply grid_ext; [auto 10 with grid | done |].
  intros cx cy Hb. cell_norm. rewrite !cell_apply_move by done.
  destruct (Hok _ _ _ Hf Hp) as (Hpos & _).
  assert (Hf' : f = boardPosition piece) by (rewrite Hpos; by destruct f).
  repeat case_bool_decide; destruct_and?; simplify_eq; try lia; try done.
  - destruct (cell sq (x t) (y t)) as [q|] eqn:Hq; [|done].
    destruct (Hok _ _ _ Ht Hq) as (Hqpos & _). cbn [fmap option_fmap option_map].
    f_equal. replace t with (boardPosition q) by (rewrite Hqpos; by destruct t).
    apply set_boardPosition_id.
  - cbn [fmap option_fmap option_map]. rewrite Hp. f_equal.
    rewrite set_boardPosition_id. apply set_hasMoved_id.
Qed.

(** C2: a committed move followed at once by [UndoLastMove] is undone:
    the call returns true and the board is the board before the move, in
    every square (type, colour, position and moved flag of every piece) and
    in [currentTurn], [gameOver], [winner] and the history. *)
Theorem UndoLastMove_MovePiece f t b r b' :
  wf_board b ->
  MovePiece f t b = (r, b') -> r <> Invalid ->
  UndoLastMove b' = (true, b).
Proof.
  intros Hwf Hm Hr. pose proof (wf_board_shape b Hwf) as Hs.
  destruct Hwf as (Hgrid & _ & Hwin & _).
  destruct (MovePiece_committed_board f t b r b' Hs Hm Hr)
    as (piece & Hready & Hsq & _ & Hh).
  pose proof (move_ready_distinct f t b piece Hready) as Hne.
  destruct Hready as (Hg & Hf & Ht & Hp & Hc & _).
  unfold UndoLastMove. rewrite Hh. f_equal.
  destruct b' as [sq' turn' g' w' h']. cbn [squares history] in Hsq, Hh. subst sq'.
  unfold move_command. rewrite <- Hc.
  rewrite (Undo_apply_move (squares b) piece f t) by done.
  unfold Undo. cbn [currentTurn gameOver winner previousTurn].
  destruct b as [sq turn g w h]. cbn [gameOver winner currentTurn] in *.
  rewrite Hc, Hg, (Hwin Hg). reflexivity.
Qed.

(** ** The branch that takes back a move that leaves the mover in check *)

(** What the branch leaves: every square but the source square is as
    before the call; the source square holds the piece that had landed on
    the target square (the moving piece with [hasMoved] set, or the new
    queen of a promotion), with the old position written back. *)
Lemma MovePiece_self_check_board f t b piece :
  grid_shape (squares b) ->
  move_ready f t b piece ->
  IsInCheck (currentTurn b) (apply_move (squares b) piece f t) = true ->
  exists b',
    MovePiece f t b = (Invalid, b')
    /\ grid_shape (squares b')
    /\ forall cx cy, InBounds cx cy = true ->
         cell (squares b') cx cy
         = if bool_decide (x f = cx /\ y f = cy)
           then Some (set_boardPosition (landed_piece piece t) (boardPosition piece))
           else cell (squares b) cx cy.
Proof.
  intros Hs Hready Hchk. eexists. split; [by apply MovePiece_self_check|].
  pose proof (move_ready_distinct f t b piece Hready) as Hne.
  destruct Hready as (_ & Hf & Ht & Hp & _).
  cbn [set_squares squares]. split; [auto with grid|].
  intros cx cy Hb. unfold revert_move. cell_norm.
  rewrite !cell_apply_move by done.
  repeat case_bool_decide; destruct_and?; simplify_eq; try lia; try done.
Qed.

(** C1 (the code departs from the claim): two calls of [MovePiece] that
    return [Invalid] through the branch for a move that leaves the mover's
    king in check, and do not give back the board of before the call.  On
    [pinned_pawn_board], reached from the initial position by four moves, the
    pinned pawn keeps [hasMoved = true]; on [promotion_board] the pawn that
    tried to promote stays a queen. *)
Theorem MovePiece_self_check_not_reverted :
  (let b := pinned_pawn_board in
   let pawn := mkPiece Pawn White (sq_of 5 6) false in
   cell (squares b) 5 6 = Some pawn
   /\ existsb (fun m => v2_eqb m (sq_of 5 5)) (GetValidMoves pawn (squares b)) = true
   /\ IsInCheck (currentTurn b) (apply_move (squares b) pawn (sq_of 5 6) (sq_of 5 5)) = true
   /\ fst (MovePiece (sq_of 5 6) (sq_of 5 5) b) = Invalid
   /\ cell (squares (snd (MovePiece (sq_of 5 6) (sq_of 5 5) b))) 5 6
      = Some (mkPiece Pawn White (sq_of 5 6) true))
  /\
  (let b := promotion_board in
   let pawn := mkPiece Pawn White (sq_of 0 1) false in
   cell (squares b) 0 1 = Some pawn
   /\ existsb (fun m => v2_eqb m (sq_of 0 0)) (GetValidMoves pawn (squares b)) = true
   /\ IsInCheck (currentTurn b) (apply_move (squares b) pawn (sq_of 0 1) (sq_of 0 0)) = true
   /\ fst (MovePiece (sq_of 0 1) (sq_of 0 0) b) = Invalid
   /\ cell (squares (snd (MovePiece (sq_of 0 1) (sq_of 0 0) b))) 0 1
      = Some (mkPiece Queen White (sq_of 0 1) false)).
Proof. vm_compute. repeat split; reflexivity. Qed.

(** ** The representation invariant is preserved *)

Lemma landed_piece_ok cx cy piece t :
  piece_ok cx cy piece -> piece_ok (x t) (y t) (landed_piece piece t).
Proof.
  intros (_ & Hc & Hty). unfold landed_piece.
  destruct (IsPromotion _); repeat split; try done; by destruct t.
Qed.

Lemma landed_piece_back_ok cx cy piece t :
  piece_ok cx cy piece ->
  piece_ok cx cy (set_boardPosition (landed_piece piece t) (boardPosition piece)).
Proof.
  intros (Hpos & Hc & Hty). unfold landed_piece.
  destruct (IsPromotion _); repeat split; try done.
Qed.

Lemma apply_move_wf sq piece f t :
  wf_grid sq ->
  InBounds (x f) (y f) = true -> InBounds (x t) (y t) = true ->
  x t <> x f \/ y t <> y f ->
  cell sq (x f) (y f) = Some piece ->
  wf_grid (apply_move sq piece f t).
Proof.
  intros [Hs Hok] Hf Ht Hne Hp. split; [auto with grid|].
  intros cx cy p Hb. rewrite cell_apply_move by done.
  repeat case_bool_decide; destruct_and?; simplify_eq; try done.
  - intros [= <-]. eapply landed_piece_ok, (Hok _ _ _ Hf Hp).
  - by apply Hok.
Qed.

Lemma move_command_wf f t b piece :
  wf_board b -> move_ready f t b piece -> wf_command (move_command b piece f t).
Proof.
  intros ([Hs Hok] & Hturn & _) (_ & Hf & Ht & Hp & _).
  destruct (Hok _ _ _ Hf Hp) as (_ & Hc & Hty).
  unfold wf_command, move_command. cbn. repeat split; try done.
  - by destruct (Hok _ _ _ Ht H) as (_ & ? & _).
  - by destruct (Hok _ _ _ Ht H) as (_ & _ & ?).
Qed.

Lemma flip_turn_not_NoColor c : flip_turn c <> NoColor.
Proof. unfold flip_turn. by case_bool_decide. Qed.

(** [MovePiece] keeps the board well formed, whatever it returns. *)
Lemma MovePiece_wf f t b r b' :
  wf_board b -> MovePiece f t b = (r, b') -> wf_board b'.
Proof.
  intros Hwf Hm. pose proof (wf_board_shape b Hwf) as Hs.
  destruct (move_ready_dec f t b) as [[piece Hready]|Hno].
  2:{ rewrite MovePiece_rejected in Hm by done. by injection Hm as <- <-. }
  pose proof (move_ready_distinct f t b piece Hready) as Hne.
  pose proof (move_command_wf f t b piece Hwf Hready) as Hcmd.
  destruct Hwf as (Hgrid & Hturn & Hwin & Hhist).
  destruct (IsInCheck (currentTurn b) (apply_move (squares b) piece f t)) eqn:Hchk.
  - destruct (MovePiece_self_check_board f t b piece Hs Hready Hchk)
      as (b1 & Hm1 & Hs1 & Hcells).
    rewrite Hm1 in Hm. injection Hm as <- <-.
    destruct (MovePiece_Invalid_frame f t b b1 Hm1) as (Et & Eg & Ew & Eh).
    destruct Hready as (_ & Hf & Ht & Hp & _). destruct Hgrid as [_ Hok].
    split; [|by rewrite Et, Eg, Ew, Eh]. split; [done|].
    intros cx cy p Hb. rewrite Hcells by done.
    case_bool_decide as E.
    + destruct E as [<- <-]. intros [= <-]. apply landed_piece_back_ok. by apply Hok.
    + by apply Hok.
  - rewrite (MovePiece_commit f t b piece Hready Hs Hchk) in Hm.
    cbv zeta in Hm. injection Hm as <- <-.
    destruct Hready as (_ & Hf & Ht & Hp & _).
    pose proof (apply_move_wf _ _ _ _ Hgrid Hf Ht Hne Hp) as Hgrid'.
    destruct (negb _);
      (split; [exact Hgrid'|]; split; [apply flip_turn_not_NoColor|];
       split; [|by constructor]).
    + intros E. discriminate E.
    + exact Hwin.
Qed.

(** What [Undo] leaves in the squares: the clone of the moved piece on the
    source square and the clone of the captured piece on the target square,
    each with the position of its square written back. *)
Lemma cell_Undo cmd b cx cy :
  grid_shape (squares b) ->
  InBounds (x (from cmd)) (y (from cmd)) = true ->
  InBounds (x (to cmd)) (y (to cmd)) = true ->
  InBounds cx cy = true ->
  cell (squares (Undo cmd b)) cx cy
  = if bool_decide (x (to cmd) = cx /\ y (to cmd) = cy)
    then (fun q => set_boardPosition q (to cmd)) <$> capturedPiece cmd
    else if bool_decide (x (from cmd) = cx /\ y (from cmd) = cy)
    then Some (set_hasMoved (set_boardPosition (movedPiece cmd) (from cmd)) (wasMoved cmd))
    else cell (squares b) cx cy.
Proof.
  intros Hs Hf Ht Hb. unfold Undo. cbn [squares]. cell_norm.
  repeat case_bool_decide; destruct_and?; simplify_eq; try lia; try done.
Qed.

Lemma Undo_shape cmd b : grid_shape (squares b) -> grid_shape (squares (Undo cmd b)).
Proof. intros. unfold Undo. cbn [squares]. auto 10 with grid. Qed.

Lemma Undo_wf_grid cmd b :
  wf_grid (squares b) -> wf_command cmd -> wf_grid (squares (Undo cmd b)).
Proof.
  intros [Hs Hok] (Hf & Ht & Hmc & Hmt & Hcap & Hprev).
  split; [by apply Undo_shape|]. intros cx cy p Hb.
  rewrite cell_Undo by done.
  repeat case_bool_decide; destruct_and?; simplify_eq.
  - destruct (capturedPiece cmd) as [q|] eqn:Hq; [|done].
    intros [= <-]. destruct (Hcap q eq_refl). repeat split; try done.
    by destruct (to cmd).
  - intros [= <-]. repeat split; try done. by destruct (from cmd).
  - by apply Hok.
Qed.

(** [UndoLastMove] keeps the board well formed. *)
Lemma UndoLastMove_wf b ok b' :
  wf_board b -> UndoLastMove b = (ok, b') -> wf_board b'.
Proof.
  intros (Hgrid & Hturn & Hwin & Hhist). unfold UndoLastMove.
  destruct (history b) as [|cmd rest] eqn:Hh.
  { intros [= <- <-]. split; [done|]. split; [done|]. split; [done|].
    rewrite Hh. constructor. }
  intros [= <- <-]. apply Forall_cons in Hhist as [Hcmd Hrest].
  split; [by apply Undo_wf_grid|]. split; [|split; [done|exact Hrest]].
  by destruct Hcmd as (_ & _ & _ & _ & _ & Hprev).
Qed.

Lemma reachable_wf b : reachable b -> wf_board b.
Proof.
  induction 1 as [|f t b _ IH|b _ IH].
  - apply start_wf.
  - destruct (MovePiece f t b) as [r b'] eqn:E. by apply (MovePiece_wf f t b r b').
  - destruct (UndoLastMove b) as [ok b'] eqn:E. by apply (UndoLastMove_wf b ok b').
Qed.


(** ** The theorems at concrete positions *)

Lemma no_kingb_sound c sq : no_kingb c sq = true -> no_king c sq.
Proof.
  unfold no_kingb, no_king. rewrite forallb_forall. intros H cx cy p Hb Hp [Ht Hc].
  apply board_cells_spec, H in Hb. cbn [fst snd] in Hb. rewrite Hp in Hb.
  unfold is_king_of in Hb. by rewrite !bool_decide_eq_true_2 in Hb.
Qed.

Lemma UndoLastMove_MovePiece_witness :
  wf_board fools_mate_board
  /\ UndoLastMove (snd (MovePiece (sq_of 3 0) (sq_of 7 4) fools_mate_board))
     = (true, fools_mate_board).
Proof.
  split; [apply wf_boardb_sound; vm_compute; reflexivity|].
  apply (UndoLastMove_MovePiece (sq_of 3 0) (sq_of 7 4) fools_mate_board Checkmate).
  - apply wf_boardb_sound. vm_compute. reflexivity.
  - vm_compute. reflexivity.
  - discriminate.
Defined.

Lemma MovePiece_mover_not_in_check_witness :
  grid_shape (squares fools_mate_board)
  /\ IsInCheck Black (squares (snd (MovePiece (sq_of 3 0) (sq_of 7 4) fools_mate_board)))
     = false.
Proof.
  split; [apply grid_shapeb_sound; vm_compute; reflexivity|].
  apply (MovePiece_mover_not_in_check (sq_of 3 0) (sq_of 7 4) fools_mate_board Checkmate).
  - apply grid_shapeb_sound. vm_compute. reflexivity.
  - vm_compute. reflexivity.
  - discriminate.
Defined.

Lemma MovePiece_classification_witness :
  wf_board fools_mate_board
  /\ (let b' := snd (MovePiece (sq_of 3 0) (sq_of 7 4) fools_mate_board) in
      fst (MovePiece (sq_of 3 0) (sq_of 7 4) fools_mate_board) = Checkmate
      /\ gameOver b' = true /\ winner b' = Black).
Proof.
  split; [apply wf_boardb_sound; vm_compute; reflexivity|].
  assert (Hm : MovePiece (sq_of 3 0) (sq_of 7 4) fools_mate_board
               = (Checkmate, snd (MovePiece (sq_of 3 0) (sq_of 7 4) fools_mate_board)))
    by (vm_compute; reflexivity).
  assert (Hwf : wf_board fools_mate_board)
    by (apply wf_boardb_sound; vm_compute; reflexivity).
  assert (Hne : Checkmate <> Invalid) by discriminate.
  destruct (MovePiece_classification _ _ _ _ _ Hwf Hm Hne) as (Hmate & _).
  cbv zeta. rewrite Hm at 1. cbn [fst]. apply Hmate. split.
  - vm_compute. reflexivity.
  - intros Hl. apply existsb_legal_from in Hl.
    + vm_compute in Hl. discriminate Hl.
    + apply grid_shapeb_sound. vm_compute. reflexivity.
Defined.

Lemma MovePiece_turn_alternation_witness :
  wf_board start
  /\ currentTurn (snd (MovePiece (sq_of 4 6) (sq_of 4 4) start)) = opposite (currentTurn start).
Proof.
  split; [apply wf_boardb_sound; vm_compute; reflexivity|].
  apply (MovePiece_turn_alternation (sq_of 4 6) (sq_of 4 4) start Success).
  - apply wf_boardb_sound. vm_compute. reflexivity.
  - vm_compute. reflexivity.
  - left. reflexivity.
Defined.

Lemma HasLegalMoves_spec_witness :
  grid_shape (squares start)
  /\ snd (HasLegalMoves White start) = start
  /\ (fst (HasLegalMoves White start) = true <-> has_legal_move White (squares start)).
Proof.
  split; [apply grid_shapeb_sound; vm_compute; reflexivity|].
  apply (HasLegalMoves_spec White start).
  apply grid_shapeb_sound. vm_compute. reflexivity.
Defined.

Lemma Pawn_GetValidMoves_spec_witness :
  wf_grid (squares start)
  /\ (In (sq_of 4 4) (GetValidMoves (mkPiece Pawn White (sq_of 4 6) false) (squares start))
      <-> pawn_target (squares start) White 4 6 4 4).
Proof.
  split; [apply wf_gridb_sound; vm_compute; reflexivity|].
  apply (Pawn_GetValidMoves_spec (squares start) 4 6
           (mkPiece Pawn White (sq_of 4 6) false) 4 4).
  - apply wf_gridb_sound. vm_compute. reflexivity.
  - reflexivity.
  - vm_compute. reflexivity.
  - reflexivity.
Defined.

Lemma MovePiece_promotes_to_queen_witness :
  grid_shape (squares black_promotion_board)
  /\ cell (squares (snd (MovePiece (sq_of 0 6) (sq_of 1 7) black_promotion_board))) 1 7
     = Some (mkPiece Queen Black (sq_of 1 7) false).
Proof.
  split; [apply grid_shapeb_sound; vm_compute; reflexivity|].
  apply (MovePiece_promotes_to_queen (sq_of 0 6) (sq_of 1 7) black_promotion_board Check
           (snd (MovePiece (sq_of 0 6) (sq_of 1 7) black_promotion_board))
           (mkPiece Pawn Black (sq_of 0 6) false)).
  - apply grid_shapeb_sound. vm_compute. reflexivity.
  - vm_compute. reflexivity.
  - discriminate.
  - vm_compute. reflexivity.
  - reflexivity.
  - right. split; reflexivity.
Defined.

Lemma IsInCheck_no_king_witness :
  no_king White (squares kingless_board)
  /\ FindKing White (squares kingless_board) = mkVector2Int (-1) (-1)
  /\ IsInCheck White (squares kingless_board) = false.
Proof.
  split; [apply no_kingb_sound; vm_compute; reflexivity|].
  apply (IsInCheck_no_king White (squares kingless_board)).
  apply no_kingb_sound. vm_compute. reflexivity.
Defined.

Lemma MovePiece_Stalemate_turn_witness :
  wf_board stalemate_board
  /\ (let b' := snd (MovePiece (sq_of 2 0) (sq_of 2 6) stalemate_board) in
      currentTurn b' = opposite (currentTurn stalemate_board)
      /\ IsInCheck (currentTurn b') (squares b') = false
      /\ ~ has_legal_move (currentTurn b') (squares b')).
Proof.
  split; [apply wf_boardb_sound; vm_compute; reflexivity|].
  apply (MovePiece_Stalemate_turn (sq_of 2 0) (sq_of 2 6) stalemate_board).
  - apply wf_boardb_sound. vm_compute. reflexivity.
  - vm_compute. reflexivity.
Defined.

(** ** The scenarios of the specification *)

Example start_e4 :
  fst (MovePiece (sq_of 4 6) (sq_of 4 4) start) = Success
  /\ currentTurn (snd (MovePiece (sq_of 4 6) (sq_of 4 4) start)) = Black.
Proof. vm_compute. split; reflexivity. Qed.

Example fools_mate :
  let '(rs, b) := play [(sq_of 5 6, sq_of 5 5); (sq_of 4 1, sq_of 4 3);
                        (sq_of 6 6, sq_of 6 4); (sq_of 3 0, sq_of 7 4)] start in
  rs = [Success; Success; Success; Checkmate]
  /\ winner b = Black /\ gameOver b = true.
Proof. vm_compute. repeat split; reflexivity. Qed.

Example stalemate_scenario :
  let '(r, b) := MovePiece (sq_of 2 0) (sq_of 2 6) stalemate_board in
  r = Stalemate /\ winner b = NoColor /\ gameOver b = true /\ currentTurn b = White.
Proof. vm_compute. repeat split; reflexivity. Qed.

(** A move onto a square held by the mover's own colour, and a move out of
    turn, are rejected and leave the board as it was. *)
Example rejection_scenario :
  MovePiece (sq_of 0 7) (sq_of 0 6) start = (Invalid, start)
  /\ MovePiece (sq_of 4 1) (sq_of 4 3) start = (Invalid, start).
Proof. vm_compute. split; reflexivity. Qed.

(** ** Move generation, piece by piece *)

Lemma step_to_spec board own nx ny mv :
  In mv (step_to board own nx ny)
  <-> mv = mkVector2Int nx ny /\ CanMoveTo board nx ny own = true.
Proof.
  unfold step_to, CanMoveTo. destruct (InBounds nx ny); cbn [negb].
  2:{ split; [intros []|intros [_ ?]; done]. }
  destruct (cell board nx ny) as [q|].
  - destruct (negb (bool_decide (color q = own))); cbn [In].
    + split; [intros [<-|[]]; done|intros [-> _]; by left].
    + split; [intros []|intros [_ ?]; done].
  - cbn [In]. split; [intros [<-|[]]; done|intros [-> _]; by left].
Qed.

Lemma knight_jumps_spec dx dy :
  In (dx, dy) knight_jumps
  <-> (Z.abs dx = 1 /\ Z.abs dy = 2) \/ (Z.abs dx = 2 /\ Z.abs dy = 1).
Proof.
  unfold knight_jumps. cbn [In]. split.
  - intros H. repeat (destruct H as [[= <- <-]|H]; [lia|]). destruct H.
  - intros H.
    assert (Hc : (dx = 1 \/ dx = -1 \/ dx = 2 \/ dx = -2)
                 /\ (dy = 1 \/ dy = -1 \/ dy = 2 \/ dy = -2)) by lia.
    destruct Hc as [[-> | [-> | [-> | ->]]] [-> | [-> | [-> | ->]]]]; try lia; tauto.
Qed.

(** X2: a knight generates exactly the squares one file and two ranks, or
    two files and one rank, away from its position that pass
    [Piece::CanMoveTo] (in bounds, and empty or held by another colour). *)
Theorem Knight_GetValidMoves_spec p board mv :
  type p = Knight ->
  In mv (GetValidMoves p board)
  <-> ((Z.abs (x mv - x (boardPosition p)) = 1 /\ Z.abs (y mv - y (boardPosition p)) = 2)
       \/ (Z.abs (x mv - x (boardPosition p)) = 2 /\ Z.abs (y mv - y (boardPosition p)) = 1))
      /\ CanMoveTo board (x mv) (y mv) (color p) = true.
Proof.
  intros Hty. unfold GetValidMoves. rewrite Hty. unfold Knight_GetValidMoves.
  rewrite in_flat_map. split.
  - intros ([dx dy] & Hj & Hin). apply step_to_spec in Hin as [-> Hcan].
    cbn [fst snd x y] in *. split; [|done].
    apply knight_jumps_spec in Hj. lia.
  - intros [Hj Hcan].
    exists (x mv - x (boardPosition p), y mv - y (boardPosition p)). split.
    + by apply knight_jumps_spec.
    + apply step_to_spec. cbn [fst snd].
      replace (x (boardPosition p) + (x mv - x (boardPosition p))) with (x mv) by lia.
      replace (y (boardPosition p) + (y mv - y (boardPosition p))) with (y mv) by lia.
      split; [by destruct mv|done].
Qed.

Lemma in_seqZ_m1_3 k : In k (seqZ (-1) 3) <-> -1 <= k <= 1.
Proof. rewrite <- list_elem_of_In, elem_of_seqZ. lia. Qed.

(** X3: a king generates exactly the squares adjacent to its position
    (at most one file and one rank away, not the position itself) that pass
    [Piece::CanMoveTo]. *)
Theorem King_GetValidMoves_spec p board mv :
  type p = King ->
  In mv (GetValidMoves p board)
  <-> Z.max (Z.abs (x mv - x (boardPosition p))) (Z.abs (y mv - y (boardPosition p))) = 1
      /\ CanMoveTo board (x mv) (y mv) (color p) = true.
Proof.
  intros Hty. unfold GetValidMoves. rewrite Hty. unfold King_GetValidMoves.
  rewrite in_flat_map. split.
  - intros (dx & Hdx & Hin). apply in_flat_map in Hin as (dy & Hdy & Hin).
    apply in_seqZ_m1_3 in Hdx, Hdy.
    destruct ((dx =? 0) && (dy =? 0)) eqn:E; [destruct Hin|].
    apply step_to_spec in Hin as [-> Hcan]. cbn [x y]. split; [|done].
    apply andb_false_iff in E. rewrite !Z.eqb_neq in E. lia.
  - intros [Hd Hcan].
    exists (x mv - x (boardPosition p)). split; [apply in_seqZ_m1_3; lia|].
    apply in_flat_map. exists (y mv - y (boardPosition p)).
    split; [apply in_seqZ_m1_3; lia|].
    destruct ((_ =? 0) && (_ =? 0)) eqn:E.
    { apply andb_true_iff in E. rewrite !Z.eqb_eq in E. lia. }
    apply step_to_spec.
    replace (x (boardPosition p) + (x mv - x (boardPosition p))) with (x mv) by lia.
    replace (y (boardPosition p) + (y mv - y (boardPosition p))) with (y mv) by lia.
    split; [by destruct mv|done].
Qed.

(** The squares one ray generates: the [k]-th square of the ray for some
    step [k] such that every earlier square of the ray is on the board and
    empty, and the square itself passes [Piece::CanMoveTo]. *)
Lemma ray_seqZ_spec board own pos d (n : nat) : forall s mv,
  In mv (ray board own pos d (seqZ s (Z.of_nat n)))
  <-> exists k,
        s <= k < s + Z.of_nat n
        /\ mv = mkVector2Int (x pos + fst d * k) (y pos + snd d * k)
        /\ (forall j, s <= j < k ->
              InBounds (x pos + fst d * j) (y pos + snd d * j) = true
              /\ cell board (x pos + fst d * j) (y pos + snd d * j) = None)
        /\ CanMoveTo board (x mv) (y mv) own = true.
Proof.
  induction n as [|n IH]; intros s mv.
  { rewrite seqZ_nil by lia. cbn [ray In]. split; [intros []|].
    intros (k & Hk & _). lia. }
  rewrite seqZ_cons by lia.
  replace (Z.pred (Z.of_nat (S n))) with (Z.of_nat n) by lia.
  cbn [ray]. cbv zeta.
  set (nx := x pos + fst d * s). set (ny := y pos + snd d * s).
  assert (Hlater : forall k, s < k ->
    (forall j, s <= j < k ->
       InBounds (x pos + fst d * j) (y pos + snd d * j) = true
       /\ cell board (x pos + fst d * j) (y pos + snd d * j) = None) ->
    InBounds nx ny = true /\ cell board nx ny = None).
  { intros k Hk Hclear. apply Hclear. lia. }
  destruct (InBounds nx ny) eqn:Hb; cbn [negb].
  2:{ split; [intros []|]. intros (k & Hk & -> & Hclear & Hcan).
      destruct (decide (k = s)) as [->|Hne].
      - unfold CanMoveTo in Hcan. cbn [x y] in Hcan. fold nx ny in Hcan.
        rewrite Hb in Hcan. done.
      - destruct (Hlater k) as [? _]; [lia|done|done]. }
  destruct (cell board nx ny) as [q|] eqn:Hc.
  - assert (Hcan_s : CanMoveTo board nx ny own = negb (bool_decide (color q = own))).
    { unfold CanMoveTo. by rewrite Hb, Hc. }
    destruct (negb (bool_decide (color q = own))) eqn:Hq; cbn [In].
    + split.
      * intros [<-|[]]. exists s. split; [lia|]. split; [done|].
        split; [intros j Hj; lia|]. exact Hcan_s.
      * intros (k & Hk & -> & Hclear & Hcan).
        destruct (decide (k = s)) as [->|Hne]; [by left|].
        destruct (Hlater k) as [_ ?]; [lia|done|done].
    + split; [intros []|]. intros (k & Hk & -> & Hclear & Hcan).
      destruct (decide (k = s)) as [->|Hne].
      * cbn [x y] in Hcan. fold nx ny in Hcan. congruence.
      * destruct (Hlater k) as [_ ?]; [lia|done|done].
  - cbn [In]. rewrite IH. split.
    + intros [<-|(k & Hk & -> & Hclear & Hcan)].
      * exists s. split; [lia|]. split; [done|]. split; [intros j Hj; lia|].
        unfold CanMoveTo. cbn [x y]. fold nx ny. by rewrite Hb, Hc.
      * exists k. split; [lia|]. split; [done|]. split; [|done].
        intros j Hj. destruct (decide (j = s)) as [->|Hne]; [done|apply Hclear; lia].
    + intros (k & Hk & -> & Hclear & Hcan).
      destruct (decide (k = s)) as [->|Hne]; [by left|]. right.
      exists k. split; [lia|]. split; [done|]. split; [|done].
      intros j Hj. apply Hclear. lia.
Qed.

(** X4: a rook, bishop or queen generates exactly the squares that lie [k]
    steps (1 to 7) along one of its directions, such that the squares before
    them on the ray are on the board and empty and the square itself passes
    [Piece::CanMoveTo]: a ray goes up to and including the first occupied
    square when that holds another colour, and never beyond it. *)
Theorem sliding_GetValidMoves_spec p board mv :
  type p = Rook \/ type p = Bishop \/ type p = Queen ->
  In mv (GetValidMoves p board)
  <-> exists d k,
        In d (dirs_of (type p)) /\ 1 <= k <= 7
        /\ mv = mkVector2Int (x (boardPosition p) + fst d * k)
                             (y (boardPosition p) + snd d * k)
        /\ (forall j, 1 <= j < k ->
              InBounds (x (boardPosition p) + fst d * j)
                       (y (boardPosition p) + snd d * j) = true
              /\ cell board (x (boardPosition p) + fst d * j)
                            (y (boardPosition p) + snd d * j) = None)
        /\ CanMoveTo board (x mv) (y mv) (color p) = true.
Proof.
  intros Hty.
  assert (Hmoves : GetValidMoves p board
                   = slide board (color p) (boardPosition p) (dirs_of (type p))).
  { unfold GetValidMoves. by destruct Hty as [-> | [-> | ->]]. }
  rewrite Hmoves. unfold slide. rewrite in_flat_map.
  change (BOARD_SIZE - 1) with (Z.of_nat 7).
  split.
  - intros (d & Hd & Hin). apply ray_seqZ_spec in Hin as (k & Hk & Hmv & Hclear & Hcan).
    exists d, k. split; [done|]. split; [lia|]. split; [done|]. split; [|done].
    intros j Hj. apply Hclear. lia.
  - intros (d & k & Hd & Hk & Hmv & Hclear & Hcan).
    exists d. split; [done|]. apply ray_seqZ_spec. exists k.
    split; [lia|]. split; [done|]. split; [|done].
    intros j Hj. apply Hclear. lia.
Qed.

(** X1: whatever the piece, every square it generates is on the board and
    is empty or held by a piece of another colour; in particular a piece
    never generates its own square or a square of its own side. *)
Theorem GetValidMoves_targets p board mv :
  In mv (GetValidMoves p board) ->
  InBounds (x mv) (y mv) = true
  /\ forall q, cell board (x mv) (y mv) = Some q -> color q <> color p.
Proof.
  intros Hin. apply GetValidMoves_CanMoveTo in Hin. unfold CanMoveTo in Hin.
  destruct (InBounds (x mv) (y mv)); [|done]. split; [done|].
  intros q Hq. rewrite Hq in Hin. cbn [negb] in Hin.
  by apply negb_true_iff, bool_decide_eq_false in Hin.
Qed.

(** ** [FindKing] and [IsInCheck] *)

Lemma find_board_cells_Some (g : Z * Z -> bool) xy :
  find g board_cells = Some xy -> InBounds (fst xy) (snd xy) = true /\ g xy = true.
Proof.
  intros H. apply find_some in H as [Hin Hg]. split; [|done].
  by apply board_cells_InBounds.
Qed.

(** X5: [FindKing] either finds no king of the colour anywhere on the board
    and returns the sentinel (-1, -1), or returns a square of the board that
    holds a king of the colour. *)
Theorem FindKing_spec c sq :
  (no_king c sq /\ FindKing c sq = mkVector2Int (-1) (-1))
  \/ (InBounds (x (FindKing c sq)) (y (FindKing c sq)) = true
      /\ exists p, cell sq (x (FindKing c sq)) (y (FindKing c sq)) = Some p
                   /\ type p = King /\ color p = c).
Proof.
  unfold FindKing.
  destruct (find _ board_cells) as [[cx cy]|] eqn:E.
  - right. apply find_board_cells_Some in E as [Hb Hk]. cbn [fst snd x y] in *.
    split; [done|]. unfold is_king_of in Hk.
    destruct (cell sq cx cy) as [p|]; [|done]. exists p.
    apply andb_true_iff in Hk as [Ht Hc].
    apply bool_decide_eq_true in Ht, Hc. done.
  - left. split; [|done]. intros cx cy p Hb Hp [Ht Hc].
    apply board_cells_spec in Hb.
    pose proof (find_none _ _ E _ Hb) as Hk. cbn [fst snd] in Hk.
    unfold is_king_of in Hk. rewrite Hp in Hk.
    by rewrite !bool_decide_eq_true_2 in Hk.
Qed.

(** X6: [IsInCheck c] is true exactly when [FindKing c] finds a king and
    some piece of another colour on the board generates the square
    [FindKing c] returns. *)
Theorem IsInCheck_true_iff c sq :
  IsInCheck c sq = true
  <-> x (FindKing c sq) <> -1
      /\ exists cx cy q,
           InBounds cx cy = true /\ cell sq cx cy = Some q /\ color q <> c
           /\ In (FindKing c sq) (GetValidMoves q sq).
Proof.
  unfold IsInCheck. cbv zeta.
  destruct (Z.eqb_spec (x (FindKing c sq)) (-1)) as [E|E].
  { split; [done|]. intros [? _]. done. }
  rewrite existsb_exists. split.
  - intros ([cx cy] & Hin & Ha). split; [done|].
    apply board_cells_spec in Hin. unfold attacks in Ha. cbn [fst snd] in Ha.
    destruct (cell sq cx cy) as [q|] eqn:Hq; [|done].
    apply andb_true_iff in Ha as [Hc Hm].
    apply negb_true_iff, bool_decide_eq_false in Hc.
    apply existsb_v2_eqb in Hm. by exists cx, cy, q.
  - intros (_ & cx & cy & q & Hb & Hq & Hc & Hm).
    exists (cx, cy). split; [by apply board_cells_spec|].
    unfold attacks. cbn [fst snd]. rewrite Hq. apply andb_true_iff. split.
    + by apply negb_true_iff, bool_decide_eq_false.
    + by apply existsb_v2_eqb.
Qed.

(** ** The check test sees occupancy and colours only *)

Section SameOccupancy.
Variables sq1 sq2 : Grid.
Hypothesis Hocc : forall cx cy, InBounds cx cy = true ->
  color <$> cell sq1 cx cy = color <$> cell sq2 cx cy.

Lemma guarded_cell_cases nx ny :
  InBounds nx ny = true ->
  (cell sq1 nx ny = None /\ cell sq2 nx ny = None)
  \/ exists q1 q2, cell sq1 nx ny = Some q1 /\ cell sq2 nx ny = Some q2
                   /\ color q1 = color q2.
Proof using Hocc.
  intros Hb. specialize (Hocc nx ny Hb).
  destruct (cell sq1 nx ny) as [q1|], (cell sq2 nx ny) as [q2|]; try done.
  - right. exists q1, q2. by injection Hocc as ->.
  - by left.
Qed.

Lemma ray_occupancy own pos d steps :
  ray sq1 own pos d steps = ray sq2 own pos d steps.
Proof using Hocc.
  induction steps as [|step rest IH]; [done|]. cbn [ray]. cbv zeta.
  destruct (InBounds _ _) eqn:Hb; cbn [negb]; [|done].
  destruct (guarded_cell_cases _ _ Hb) as [[-> ->]|(q1 & q2 & -> & -> & ->)].
  - by rewrite IH.
  - done.
Qed.

Lemma step_to_occupancy own nx ny : step_to sq1 own nx ny = step_to sq2 own nx ny.
Proof using Hocc.
  unfold step_to. destruct (InBounds nx ny) eqn:Hb; [|done].
  by destruct (guarded_cell_cases _ _ Hb) as [[-> ->]|(q1 & q2 & -> & -> & ->)].
Qed.

Lemma guard_null_occupancy nx ny :
  InBounds nx ny && is_null (cell sq1 nx ny) = InBounds nx ny && is_null (cell sq2 nx ny).
Proof using Hocc.
  destruct (InBounds nx ny) eqn:Hb; [|done].
  by destruct (guarded_cell_cases _ _ Hb) as [[-> ->]|(q1 & q2 & -> & -> & _)].
Qed.

Lemma Pawn_occupancy p : Pawn_GetValidMoves p sq1 = Pawn_GetValidMoves p sq2.
Proof using Hocc.
  unfold Pawn_GetValidMoves. cbv zeta. f_equal.
  - rewrite guard_null_occupancy. destruct (_ && is_null _); [|done]. f_equal.
    rewrite <- !andb_assoc, guard_null_occupancy. done.
  - apply flat_map_ext. intros dx.
    destruct (InBounds _ _) eqn:Hb; [|done].
    by destruct (guarded_cell_cases _ _ Hb) as [[-> ->]|(q1 & q2 & -> & -> & ->)].
Qed.

(** The moves a piece generates depend on the grid only through which
    squares are occupied and by which colour. *)
Lemma GetValidMoves_occupancy p : GetValidMoves p sq1 = GetValidMoves p sq2.
Proof using Hocc.
  unfold GetValidMoves. destruct (type p); try done.
  - apply flat_map_ext. intros d. apply ray_occupancy.
  - apply flat_map_ext. intros j. apply step_to_occupancy.
  - apply flat_map_ext. intros d. apply ray_occupancy.
  - apply flat_map_ext. intros d. apply ray_occupancy.
  - apply flat_map_ext. intros dx. apply flat_map_ext. intros dy.
    destruct (_ && _); [done|]. apply step_to_occupancy.
  - apply Pawn_occupancy.
Qed.
End SameOccupancy.

Lemma find_ext_in {A} (g1 g2 : A -> bool) (l : list A) :
  (forall a, In a l -> g1 a = g2 a) -> find g1 l = find g2 l.
Proof.
  induction l as [|a l IH]; intros H; [done|]. cbn [find].
  rewrite (H a) by (by left). destruct (g2 a); [done|].
  apply IH. intros; apply H; by right.
Qed.

Lemma existsb_ext_in {A} (g1 g2 : A -> bool) (l : list A) :
  (forall a, In a l -> g1 a = g2 a) -> existsb g1 l = existsb g2 l.
Proof.
  induction l as [|a l IH]; intros H; [done|]. cbn [existsb].
  rewrite (H a) by (by left). f_equal. apply IH. intros; apply H; by right.
Qed.

Lemma cell_alike_refl c o : cell_alike c o o.
Proof. destruct o; cbn; [|done]. repeat split; done. Qed.

Lemma alike_occupancy c sq1 sq2 cx cy :
  alike c sq1 sq2 -> InBounds cx cy = true ->
  color <$> cell sq1 cx cy = color <$> cell sq2 cx cy.
Proof.
  intros H Hb. specialize (H cx cy Hb). unfold cell_alike in H.
  destruct (cell sq1 cx cy), (cell sq2 cx cy); try done.
  destruct H as (E & _). cbn. by rewrite E.
Qed.

(** [IsInCheck c] gives the same answer on two grids that differ only in
    pieces of colour [c] that are kings on both grids or on neither. *)
Lemma IsInCheck_alike c sq1 sq2 :
  alike c sq1 sq2 -> IsInCheck c sq1 = IsInCheck c sq2.
Proof.
  intros H.
  assert (Hk : FindKing c sq1 = FindKing c sq2).
  { unfold FindKing. erewrite find_ext_in; [done|].
    intros [cx cy] Hin. apply board_cells_spec in Hin. cbn [fst snd].
    specialize (H cx cy Hin). unfold cell_alike in H. unfold is_king_of.
    destruct (cell sq1 cx cy) as [p1|], (cell sq2 cx cy) as [p2|]; try done.
    destruct H as (Hc & Ht & _). rewrite Hc. f_equal.
    apply bool_decide_ext. done. }
  unfold IsInCheck. cbv zeta. rewrite Hk.
  destruct (_ =? -1); [done|].
  apply existsb_ext_in. intros [cx cy] Hin. apply board_cells_spec in Hin.
  unfold attacks. cbn [fst snd].
  pose proof (H cx cy Hin) as Hxy. unfold cell_alike in Hxy.
  destruct (cell sq1 cx cy) as [p1|], (cell sq2 cx cy) as [p2|]; try done.
  destruct Hxy as (Hc & _ & Hsame).
  destruct (decide (color p1 = c)) as [E|E].
  - rewrite <- Hc. by rewrite !bool_decide_eq_true_2.
  - rewrite <- (Hsame E). f_equal.
    by rewrite (GetValidMoves_occupancy sq1 sq2
                  (fun cx' cy' Hb' => alike_occupancy c sq1 sq2 cx' cy' H Hb')).
Qed.

Lemma IsPromotion_Pawn p : IsPromotion p = true -> type p = Pawn.
Proof. unfold IsPromotion. by destruct (type p). Qed.

(** The grid [MovePiece] tests and the grid [HasLegalMoves] tests for the
    same move look alike to the check test of the mover's colour. *)
Lemma apply_move_relocate_alike sq piece f t :
  grid_shape sq ->
  InBounds (x f) (y f) = true -> InBounds (x t) (y t) = true ->
  x t <> x f \/ y t <> y f ->
  alike (color piece) (apply_move sq piece f t) (relocate sq (x f) (y f) piece t).
Proof.
  intros Hs Hf Ht Hne cx cy Hb.
  rewrite cell_apply_move by done. unfold relocate. cell_norm.
  repeat case_bool_decide; try apply cell_alike_refl.
  cbn. unfold landed_piece.
  destruct (IsPromotion (moved_piece piece t)) eqn:Hpr.
  - apply IsPromotion_Pawn in Hpr. cbn in Hpr. cbn. rewrite Hpr.
    repeat split; done.
  - cbn. repeat split; done.
Qed.

Lemma classify_not_Invalid ic hm : classify ic hm <> Invalid.
Proof. rewrite classify_cases. by destruct ic, hm. Qed.

(** [MovePiece] accepts a move exactly when it passes the guards and the
    relocation of the piece leaves the mover's king out of check. *)
Lemma MovePiece_accepts_iff f t b :
  grid_shape (squares b) ->
  fst (MovePiece f t b) <> Invalid
  <-> exists piece,
        move_ready f t b piece
        /\ IsInCheck (currentTurn b) (relocate (squares b) (x f) (y f) piece t) = false.
Proof.
  intros Hs. split.
  - intros Hr. destruct (MovePiece f t b) as [r b'] eqn:Hm. cbn [fst] in Hr.
    destruct (MovePiece_committed f t b r b' Hs Hm Hr)
      as (piece & _ & _ & Hready & Hchk & _).
    exists piece. split; [done|].
    pose proof (move_ready_distinct f t b piece Hready) as Hne.
    destruct Hready as (_ & Hf & Ht & _ & Hc & _).
    rewrite <- Hc in *.
    by rewrite <- (IsInCheck_alike _ _ _ (apply_move_relocate_alike _ piece f t Hs Hf Ht Hne)).
  - intros (piece & Hready & Hchk).
    pose proof (move_ready_distinct f t b piece Hready) as Hne.
    assert (Hchk' : IsInCheck (currentTurn b) (apply_move (squares b) piece f t) = false).
    { destruct Hready as (_ & Hf & Ht & _ & Hc & _). rewrite <- Hc in *.
      by rewrite (IsInCheck_alike _ _ _ (apply_move_relocate_alike _ piece f t Hs Hf Ht Hne)). }
    rewrite (MovePiece_commit f t b piece Hready Hs Hchk'). cbv zeta. cbn [fst].
    apply classify_not_Invalid.
Qed.

(** X7: [MovePiece] accepts a move (returns something other than
    [Invalid]) exactly when the game is running, both squares are on the
    board, the source square holds a piece of the side to move that generates
    the target square, and relocating the piece leaves the mover's king out
    of check.  Setting [hasMoved] and promoting, which [MovePiece] does
    before its check test, never change the outcome of that test. *)
Theorem MovePiece_accepts_iff_legal f t b :
  grid_shape (squares b) ->
  fst (MovePiece f t b) <> Invalid
  <-> exists piece,
        move_ready f t b piece
        /\ IsInCheck (currentTurn b) (relocate (squares b) (x f) (y f) piece t) = false.
Proof. apply MovePiece_accepts_iff. Qed.

(** X8: while the game is running, [HasLegalMoves] of the side to move
    is true exactly when some call of [MovePiece] would be accepted: the
    search that classifies checkmate and stalemate agrees with what
    [MovePiece] lets the side to move play. *)
Theorem HasLegalMoves_iff_MovePiece_accepts b :
  grid_shape (squares b) -> gameOver b = false ->
  fst (HasLegalMoves (currentTurn b) b) = true
  <-> exists f t, fst (MovePiece f t b) <> Invalid.
Proof.
  intros Hs Hg. rewrite HasLegalMoves_frame by done. cbn [fst].
  rewrite existsb_legal_from by done. split.
  - intros (cx & cy & p & mv & Hb & Hp & Hc & Hin & Hchk).
    exists (mkVector2Int cx cy), mv. apply MovePiece_accepts_iff; [done|].
    exists p. split; [|done]. repeat split; try done.
    by apply (GetValidMoves_InBounds (squares b) p).
  - intros (f & t & Hr). apply MovePiece_accepts_iff in Hr as (piece & Hready & Hchk); [|done].
    destruct Hready as (_ & Hf & _ & Hp & Hc & Hin).
    by exists (x f), (y f), piece, t.
Qed.

(** ** More on [MovePiece] *)

(** X9: [MovePiece] returns [Invalid] and leaves the board exactly as it
    was when the game is over, when a coordinate is off the board, when the
    source square is empty or holds a piece of the side not to move, when
    source and target are the same square, or when the target square holds a
    piece of the side to move. *)
Theorem MovePiece_rejects f t b :
  gameOver b = true
  \/ InBounds (x f) (y f) = false
  \/ InBounds (x t) (y t) = false
  \/ cell (squares b) (x f) (y f) = None
  \/ (exists p, cell (squares b) (x f) (y f) = Some p /\ color p <> currentTurn b)
  \/ f = t
  \/ (exists q, cell (squares b) (x t) (y t) = Some q /\ color q = currentTurn b) ->
  MovePiece f t b = (Invalid, b).
Proof.
  intros H. apply MovePiece_rejected. intros piece (Hg & Hf & Ht & Hp & Hc & Hin).
  destruct H as [H|[H|[H|[H|[(p & Hp' & Hne)|[->|(q & Hq & Hcq)]]]]]]; try congruence.
  - destruct (GetValidMoves_not_own_square _ _ _ _ _ Hp Hin); done.
  - apply GetValidMoves_CanMoveTo in Hin. unfold CanMoveTo in Hin.
    rewrite Ht, Hq in Hin. cbn [negb] in Hin.
    apply negb_true_iff, bool_decide_eq_false in Hin. congruence.
Qed.

(** X10: a call of [MovePiece] that does not return [Invalid] empties the
    source square, puts on the target square the moved piece with its new
    position and [hasMoved] set (or a new queen if it promotes), leaves every
    other square as it was, and pushes exactly one record on the history:
    source, target, the piece as it was, what stood on the target square,
    the old [hasMoved] flag, whether the move promoted, and the side that
    moved. *)
Theorem MovePiece_commit_effect f t b r b' :
  grid_shape (squares b) ->
  MovePiece f t b = (r, b') -> r <> Invalid ->
  exists piece,
    cell (squares b) (x f) (y f) = Some piece
    /\ (forall cx cy, InBounds cx cy = true ->
          cell (squares b') cx cy
          = if bool_decide (x t = cx /\ y t = cy)
            then Some (if IsPromotion (moved_piece piece t)
                       then mkPiece Queen (color piece) t false
                       else mkPiece (type piece) (color piece) t true)
            else if bool_decide (x f = cx /\ y f = cy) then None
            else cell (squares b) cx cy)
    /\ history b'
       = mkMoveCommand f t piece (cell (squares b) (x t) (y t)) (hasMoved piece)
                       (IsPromotion (moved_piece piece t)) (currentTurn b)
         :: history b.
Proof.
  intros Hs Hm Hr.
  destruct (MovePiece_committed_board f t b r b' Hs Hm Hr)
    as (piece & Hready & Hsq & _ & Hh).
  pose proof (move_ready_distinct f t b piece Hready) as Hne.
  destruct Hready as (_ & Hf & Ht & Hp & _).
  exists piece. split; [done|]. split; [|done].
  intros cx cy Hb. rewrite Hsq, cell_apply_move by done. reflexivity.
Qed.

(** X11: when [MovePiece] takes a move back because it leaves the mover in
    check, it returns [Invalid]; the side to move, the game-over flags and
    the history are as before, and so is every square except the source
    square, which holds a piece of the same colour at the same position:
    the moved piece with [hasMoved] set, or the new queen of a promotion. *)
Theorem MovePiece_take_back_effect f t b piece :
  grid_shape (squares b) ->
  move_ready f t b piece ->
  boardPosition piece = f ->
  IsInCheck (currentTurn b) (apply_move (squares b) piece f t) = true ->
  fst (MovePiece f t b) = Invalid
  /\ currentTurn (snd (MovePiece f t b)) = currentTurn b
  /\ gameOver (snd (MovePiece f t b)) = gameOver b
  /\ winner (snd (MovePiece f t b)) = winner b
  /\ history (snd (MovePiece f t b)) = history b
  /\ forall cx cy, InBounds cx cy = true ->
       cell (squares (snd (MovePiece f t b))) cx cy
       = if bool_decide (x f = cx /\ y f = cy)
         then Some (if IsPromotion (moved_piece piece t)
                    then mkPiece Queen (color piece) f false
                    else mkPiece (type piece) (color piece) f true)
         else cell (squares b) cx cy.
Proof.
  intros Hs Hready Hpos Hchk.
  destruct (MovePiece_self_check_board f t b piece Hs Hready Hchk)
    as (b' & Hm & _ & Hcells).
  rewrite Hm. cbn [fst snd].
  destruct (MovePiece_Invalid_frame f t b b' Hm) as (Et & Eg & Ew & Eh).
  repeat (split; [done|]).
  intros cx cy Hb. rewrite Hcells by done. unfold landed_piece. rewrite Hpos.
  by destruct (IsPromotion _).
Qed.

Lemma MovePiece_gameOver f t b r b' :
  grid_shape (squares b) ->
  MovePiece f t b = (r, b') -> r = Checkmate \/ r = Stalemate -> gameOver b' = true.
Proof.
  intros Hs Hm Hr.
  assert (Hne : r <> Invalid) by (destruct Hr as [-> | ->]; done).
  destruct (MovePiece_committed f t b r b' Hs Hm Hne)
    as (piece & ic & hm & _ & _ & _ & _ & Hcl & ->).
  rewrite classify_cases in Hcl.
  destruct ic, hm, Hr as [-> | ->]; try discriminate Hcl; reflexivity.
Qed.

(** X12: once [MovePiece] has returned [Checkmate] or [Stalemate], the
    board is marked game over and every further call of [MovePiece] returns
    [Invalid] and leaves the board as it is. *)
Theorem MovePiece_after_game_end f t b r b' f' t' :
  grid_shape (squares b) ->
  MovePiece f t b = (r, b') -> r = Checkmate \/ r = Stalemate ->
  gameOver b' = true /\ MovePiece f' t' b' = (Invalid, b').
Proof.
  intros Hs Hm Hr. pose proof (MovePiece_gameOver f t b r b' Hs Hm Hr) as Hg.
  split; [done|]. unfold MovePiece. by rewrite Hg.
Qed.

(** X13: [MovePiece] keeps the board well formed, whatever it returns:
    the grid stays 8x8, every piece carries the position of its square and a
    real colour and type, [currentTurn] is Black or White, [winner] is set
    only when the game is over, and the history records stay usable. *)
Theorem MovePiece_preserves_wf f t b :
  wf_board b -> wf_board (snd (MovePiece f t b)).
Proof.
  intros Hwf. destruct (MovePiece f t b) as [r b'] eqn:Hm.
  exact (MovePiece_wf f t b r b' Hwf Hm).
Qed.

(** X14: [UndoLastMove] keeps the board well formed. *)
Theorem UndoLastMove_preserves_wf b :
  wf_board b -> wf_board (snd (UndoLastMove b)).
Proof.
  intros Hwf. destruct (UndoLastMove b) as [ok b'] eqn:Hu.
  exact (UndoLastMove_wf b ok b' Hwf Hu).
Qed.

(** X15: on every board reached from the initial position by calls of
    [MovePiece] and [UndoLastMove], [GetPieceAt] answers null for a position
    off the board, and a piece it returns carries the queried position, is
    Black or White and has one of the six piece types. *)
Theorem GetPieceAt_reachable b pos :
  reachable b ->
  (InBounds (x pos) (y pos) = false -> GetPieceAt pos b = None)
  /\ forall p, GetPieceAt pos b = Some p ->
       boardPosition p = pos /\ color p <> NoColor /\ type p <> NoType.
Proof.
  intros Hr. apply reachable_wf in Hr as ([_ Hok] & _).
  unfold GetPieceAt. split.
  - by intros ->.
  - intros p. destruct (InBounds (x pos) (y pos)) eqn:Hb; [|done]. cbn [negb].
    intros Hp. destruct (Hok _ _ _ Hb Hp) as (Hpos & Hc & Ht).
    repeat split; try done. rewrite Hpos. by destruct pos.
Qed.

(** ** Undoing several moves *)

Lemma Undo_after_commit f t b r b' :
  wf_board b ->
  MovePiece f t b = (r, b') -> r <> Invalid ->
  UndoLastMove b' = (true, b).
Proof.
  intros Hwf Hm Hr. pose proof (wf_board_shape b Hwf) as Hs.
  destruct Hwf as (Hgrid & _ & Hwin & _).
  destruct (MovePiece_committed_board f t b r b' Hs Hm Hr)
    as (piece & Hready & Hsq & _ & Hh).
  pose proof (move_ready_distinct f t b piece Hready) as Hne.
  destruct Hready as (Hg & Hf & Ht & Hp & Hc & _).
  unfold UndoLastMove. rewrite Hh. f_equal.
  destruct b' as [sq' turn' g' w' h']. cbn [squares history] in Hsq, Hh. subst sq'.
  unfold move_command. rewrite <- Hc.
  rewrite (Undo_apply_move (squares b) piece f t) by done.
  unfold Undo. cbn [currentTurn gameOver winner previousTurn].
  destruct b as [sq turn g w h]. cbn [gameOver winner currentTurn] in *.
  rewrite Hc, Hg, (Hwin Hg). reflexivity.
Qed.

Lemma undo_n_S n b : undo_n (S n) b = snd (UndoLastMove (undo_n n b)).
Proof.
  revert b. induction n as [|n IH]; intros b; [done|].
  change (undo_n (S (S n)) b) with (undo_n (S n) (snd (UndoLastMove b))).
  by rewrite IH.
Qed.

(** X16: undo unwinds a whole line of play: after any sequence of calls of
    [MovePiece] on a well-formed board, none of which returned [Invalid], as
    many calls of [UndoLastMove] give back the board of before the first
    move, history included. *)
Theorem undo_n_play ms : forall b rs b',
  wf_board b ->
  play ms b = (rs, b') ->
  Forall (fun r => r <> Invalid) rs ->
  undo_n (length ms) b' = b.
Proof.
  induction ms as [|[f t] rest IH]; intros b rs b' Hwf Hplay Hrs.
  { by injection Hplay as _ <-. }
  cbn [play] in Hplay.
  destruct (MovePiece f t b) as [r b1] eqn:Hm.
  destruct (play rest b1) as [rs' b2] eqn:Hrest.
  injection Hplay as <- <-. apply Forall_cons in Hrs as [Hr Hrs'].
  cbn [length]. rewrite undo_n_S.
  rewrite (IH b1 rs' b2 (MovePiece_wf f t b r b1 Hwf Hm) Hrest Hrs').
  by rewrite (Undo_after_commit f t b r b1 Hwf Hm Hr).
Qed.

(** ** [Initialize] *)

Lemma in_bounds_cases cx cy :
  InBounds cx cy = true ->
  (cx = 0 \/ cx = 1 \/ cx = 2 \/ cx = 3 \/ cx = 4 \/ cx = 5 \/ cx = 6 \/ cx = 7)
  /\ (cy = 0 \/ cy = 1 \/ cy = 2 \/ cy = 3 \/ cy = 4 \/ cy = 5 \/ cy = 6 \/ cy = 7).
Proof. intros H. apply InBounds_spec in H. lia. Qed.

Lemma place_shape t c cx cy sq : grid_shape sq -> grid_shape (place t c cx cy sq).
Proof. intros. unfold place. auto with grid. Qed.

#[local] Hint Resolve place_shape : grid.

Ltac cell_place :=
  unfold place at 1;
  first [ rewrite cell_put_ne by lia
        | rewrite cell_put_eq by (first [ reflexivity | auto 40 with grid ]) ].

Lemma cell_Initialize_grid sq cx cy :
  grid_shape sq -> InBounds cx cy = true ->
  cell (place_back_rank White 7 (place_pawns White 6
          (place_back_rank Black 0 (place_pawns Black 1 sq)))) cx cy
  = if (2 <=? cy) && (cy <=? 5) then cell sq cx cy else initial_piece cx cy.
Proof.
  intros Hs Hb. unfold place_back_rank, place_pawns, back_rank.
  change (seqZ 0 BOARD_SIZE) with [0; 1; 2; 3; 4; 5; 6; 7].
  cbn [foldl zip zip_with].
  destruct (in_bounds_cases cx cy Hb)
    as [[-> | [-> | [-> | [-> | [-> | [-> | [-> | ->]]]]]]]
        [-> | [-> | [-> | [-> | [-> | [-> | [-> | ->]]]]]]]];
    repeat cell_place; reflexivity.
Qed.

Lemma Initialize_grid_shape sq :
  grid_shape sq ->
  grid_shape (place_back_rank White 7 (place_pawns White 6
                (place_back_rank Black 0 (place_pawns Black 1 sq)))).
Proof.
  intros Hs. unfold place_back_rank, place_pawns, back_rank.
  change (seqZ 0 BOARD_SIZE) with [0; 1; 2; 3; 4; 5; 6; 7].
  cbn [foldl zip zip_with]. auto 40 with grid.
Qed.

(** X17: [Initialize] writes the 32 starting pieces on ranks 0, 1, 6 and 7
    and nothing else: the squares of ranks 2 to 5, the side to move, the
    game-over flags and the history stay as they are, so calling it on a
    board in play does not reset the game. *)
Theorem Initialize_effect b :
  grid_shape (squares b) ->
  currentTurn (Initialize b) = currentTurn b
  /\ gameOver (Initialize b) = gameOver b
  /\ winner (Initialize b) = winner b
  /\ history (Initialize b) = history b
  /\ forall cx cy, InBounds cx cy = true ->
       cell (squares (Initialize b)) cx cy
       = if (2 <=? cy) && (cy <=? 5) then cell (squares b) cx cy
         else initial_piece cx cy.
Proof.
  intros Hs. repeat (split; [reflexivity|]).
  intros cx cy Hb. by apply cell_Initialize_grid.
Qed.

(** X18: on an 8x8 board a second call of [Initialize] changes nothing. *)
Theorem Initialize_idempotent b :
  grid_shape (squares b) -> Initialize (Initialize b) = Initialize b.
Proof.
  intros Hs. unfold Initialize at 1 3. cbv zeta. unfold set_squares. f_equal.
  apply grid_ext.
  - apply Initialize_grid_shape. apply Initialize_grid_shape. done.
  - by apply Initialize_grid_shape.
  - intros cx cy Hb.
    rewrite cell_Initialize_grid by (done || by apply Initialize_grid_shape).
    destruct ((2 <=? cy) && (cy <=? 5)) eqn:E; [done|].
    rewrite (cell_Initialize_grid (squares b)) by done. by rewrite E.
Qed.

(** ** [ChessGame::Update] *)

(** A rejected move changes no colour on the board. *)
Lemma MovePiece_Invalid_colours f t b b' :
  grid_shape (squares b) ->
  MovePiece f t b = (Invalid, b') ->
  forall cx cy, InBounds cx cy = true ->
    color <$> cell (squares b') cx cy = color <$> cell (squares b) cx cy.
Proof.
  intros Hs Hm cx cy Hb.
  destruct (move_ready_dec f t b) as [[piece Hready]|Hno].
  2:{ rewrite MovePiece_rejected in Hm by done. by injection Hm as <-. }
  destruct (IsInCheck (currentTurn b) (apply_move (squares b) piece f t)) eqn:Hchk.
  - destruct (MovePiece_self_check_board f t b piece Hs Hready Hchk)
      as (b1 & Hm1 & _ & Hcells).
    rewrite Hm1 in Hm. injection Hm as <-. rewrite Hcells by done.
    case_bool_decide as E; [|done]. destruct E as [<- <-].
    destruct Hready as (_ & _ & _ & -> & _). cbn. f_equal.
    unfold landed_piece. by destruct (IsPromotion _).
  - rewrite (MovePiece_commit f t b piece Hready Hs Hchk) in Hm. cbv zeta in Hm.
    injection Hm as Hcl _. by apply classify_not_Invalid in Hcl.
Qed.

(** The board after a frame is the board before it, or what
    [UndoLastMove] or one call of [MovePiece] makes of it. *)
Lemma Update_board inp g :
  ChessGame.board (ChessGame.Update inp g) = ChessGame.board g
  \/ ChessGame.board (ChessGame.Update inp g) = snd (UndoLastMove (ChessGame.board g))
  \/ exists t, ChessGame.board (ChessGame.Update inp g)
               = snd (MovePiece (ChessGame.selectedSquare g) t (ChessGame.board g)).
Proof.
  unfold ChessGame.Update. cbv zeta.
  set (clicked := mkVector2Int (Z.quot (ChessGame.mouseX inp) TILE_SIZE)
                               (Z.quot (ChessGame.mouseY inp) TILE_SIZE)).
  destruct (gameOver (ChessGame.board g)); [left; reflexivity|].
  destruct (ChessGame.keyU inp).
  { right; left. destruct (UndoLastMove (ChessGame.board g)) as [[] b']; reflexivity. }
  destruct (ChessGame.mouseLeft inp); [|left; reflexivity].
  destruct (negb (ChessGame.pieceSelected g)).
  { left. destruct (GetPieceAt clicked (ChessGame.board g)) as [p|]; [|reflexivity].
    case_bool_decide; reflexivity. }
  right; right. exists clicked.
  destruct (MovePiece (ChessGame.selectedSquare g) clicked (ChessGame.board g))
    as [r b'] eqn:Hm. cbn [snd].
  destruct (ChessGame.move_done r); [reflexivity|].
  destruct (v2_eqb clicked (ChessGame.selectedSquare g)); [reflexivity|].
  destruct (GetPieceAt clicked b') as [p|]; [|reflexivity].
  case_bool_decide; reflexivity.
Qed.

(** X19: a frame of [Update] keeps the board well formed, whatever the
    keyboard and the mouse report. *)
Theorem Update_preserves_wf inp g :
  wf_board (ChessGame.board g) -> wf_board (ChessGame.board (ChessGame.Update inp g)).
Proof.
  intros Hwf. destruct (Update_board inp g) as [-> | [-> | [t ->]]].
  - done.
  - destruct (UndoLastMove (ChessGame.board g)) as [ok b'] eqn:Hu.
    exact (UndoLastMove_wf _ ok b' Hwf Hu).
  - destruct (MovePiece (ChessGame.selectedSquare g) t (ChessGame.board g))
      as [r b'] eqn:Hm.
    exact (MovePiece_wf _ _ _ r b' Hwf Hm).
Qed.

(** X20: once the board is marked game over, no sequence of frames changes
    the board or the selection again: [Update] returns before it looks at the
    keyboard, so a finished game cannot be undone with the U key. *)
Theorem run_game_over_frozen inps : forall g,
  gameOver (ChessGame.board g) = true ->
  ChessGame.board (ChessGame.run inps g) = ChessGame.board g
  /\ ChessGame.selectedSquare (ChessGame.run inps g) = ChessGame.selectedSquare g
  /\ ChessGame.pieceSelected (ChessGame.run inps g) = ChessGame.pieceSelected g.
Proof.
  induction inps as [|inp rest IH]; intros g Hg; [done|].
  cbn [ChessGame.run].
  assert (Hstep : ChessGame.board (ChessGame.Update inp g) = ChessGame.board g
            /\ ChessGame.selectedSquare (ChessGame.Update inp g) = ChessGame.selectedSquare g
            /\ ChessGame.pieceSelected (ChessGame.Update inp g) = ChessGame.pieceSelected g).
  { unfold ChessGame.Update. cbv zeta. by rewrite Hg. }
  destruct Hstep as (Eb & Es & Ep).
  destruct (IH (ChessGame.Update inp g)) as (-> & -> & ->); [by rewrite Eb|]. done.
Qed.

(** X21: a frame of [Update] keeps the selection meaningful: if before the
    frame a selection, when there is one and the game is running, points at a
    piece of the side to move, then so it does after the frame. *)
Theorem Update_selection_ok inp g :
  grid_shape (squares (ChessGame.board g)) ->
  ChessGame.selection_ok g -> ChessGame.selection_ok (ChessGame.Update inp g).
Proof.
  intros Hs Hok. unfold ChessGame.selection_ok in *.
  unfold ChessGame.Update. cbv zeta.
  set (clicked := mkVector2Int (Z.quot (ChessGame.mouseX inp) TILE_SIZE)
                               (Z.quot (ChessGame.mouseY inp) TILE_SIZE)).
  destruct (gameOver (ChessGame.board g)) eqn:Hg.
  { cbn [ChessGame.board ChessGame.pieceSelected]. intros _ E. congruence. }
  destruct (ChessGame.keyU inp).
  { unfold UndoLastMove. destruct (history (ChessGame.board g)).
    - cbn [ChessGame.board ChessGame.pieceSelected ChessGame.selectedSquare].
      intros Hsel _. by apply Hok.
    - cbn [ChessGame.pieceSelected]. intros E. discriminate E. }
  destruct (ChessGame.mouseLeft inp).
  2:{ cbn [ChessGame.board ChessGame.pieceSelected ChessGame.selectedSquare].
      intros Hsel _. by apply Hok. }
  destruct (ChessGame.pieceSelected g) eqn:Hsel; cbn [negb].
  2:{ destruct (GetPieceAt clicked (ChessGame.board g)) as [p|] eqn:Hp.
      - case_bool_decide as Hc;
          cbn [ChessGame.board ChessGame.pieceSelected ChessGame.selectedSquare].
        + intros _ _. by exists p.
        + intros E. discriminate E.
      - cbn [ChessGame.pieceSelected]. intros E. discriminate E. }
  destruct (Hok eq_refl eq_refl) as (p0 & Hp0 & Hc0).
  destruct (MovePiece (ChessGame.selectedSquare g) clicked (ChessGame.board g))
    as [r b'] eqn:Hm.
  destruct (ChessGame.move_done r) eqn:Hdone.
  { cbn [ChessGame.pieceSelected]. intros E. discriminate E. }
  destruct (v2_eqb clicked (ChessGame.selectedSquare g)).
  { cbn [ChessGame.pieceSelected]. intros E. discriminate E. }
  assert (Hcases : r = Invalid \/ r = Stalemate) by (destruct r; try discriminate Hdone; auto).
  destruct Hcases as [-> | ->].
  - destruct (MovePiece_Invalid_frame _ _ _ _ Hm) as (Et & Eg & _).
    pose proof (MovePiece_Invalid_colours _ _ _ _ Hs Hm) as Hcol.
    assert (Hkeep : exists p, GetPieceAt (ChessGame.selectedSquare g) b' = Some p
                              /\ color p = currentTurn b').
    { unfold GetPieceAt in Hp0 |- *.
      destruct (InBounds (x (ChessGame.selectedSquare g)) (y (ChessGame.selectedSquare g)))
        eqn:Hb; cbn [negb] in Hp0 |- *; [|discriminate Hp0].
      specialize (Hcol _ _ Hb). rewrite Hp0 in Hcol.
      destruct (cell (squares b') _ _) as [p'|]; [|discriminate Hcol].
      exists p'. split; [reflexivity|]. cbn in Hcol. injection Hcol as ->. congruence. }
    destruct (GetPieceAt clicked b') as [p|] eqn:Hp.
    + case_bool_decide as Hc;
        cbn [ChessGame.board ChessGame.pieceSelected ChessGame.selectedSquare];
        intros _ _; [by exists p|exact Hkeep].
    + cbn [ChessGame.board ChessGame.pieceSelected ChessGame.selectedSquare].
      intros _ _. exact Hkeep.
  - assert (Hgo : gameOver b' = true)
      by (apply (MovePiece_gameOver _ _ _ _ _ Hs Hm); by right).
    destruct (GetPieceAt clicked b') as [p|]; [case_bool_decide|];
      cbn [ChessGame.board]; intros _ E; congruence.
Qed.

(** X22: a click that lands off the board (for instance in the status bar
    below it) never changes the board, whether or not a piece is selected,
    unless the U key is pressed in the same frame. *)
Theorem Update_click_off_board inp g :
  ChessGame.keyU inp = false ->
  InBounds (Z.quot (ChessGame.mouseX inp) TILE_SIZE)
           (Z.quot (ChessGame.mouseY inp) TILE_SIZE) = false ->
  ChessGame.board (ChessGame.Update inp g) = ChessGame.board g.
Proof.
  intros Hk Hb. unfold ChessGame.Update. cbv zeta. rewrite Hk.
  destruct (gameOver _); [done|]. destruct (ChessGame.mouseLeft inp); [|done].
  assert (Hget : forall b, GetPieceAt (mkVector2Int
                   (Z.quot (ChessGame.mouseX inp) TILE_SIZE)
                   (Z.quot (ChessGame.mouseY inp) TILE_SIZE)) b = None).
  { intros b. unfold GetPieceAt. cbn [x y]. by rewrite Hb. }
  destruct (negb _); [by rewrite Hget|].
  rewrite MovePiece_rejected.
  - cbn. destruct (v2_eqb _ _); [done|]. by rewrite Hget.
  - intros piece (_ & _ & Ht & _). cbn [x y] in Ht. congruence.
Qed.

(** ** The further theorems at concrete positions *)

Lemma GetValidMoves_targets_witness :
  In (sq_of 2 5) (GetValidMoves (mkPiece Knight White (sq_of 1 7) false) (squares start))
  /\ InBounds 2 5 = true
  /\ forall q, cell (squares start) 2 5 = Some q -> color q <> White.
Proof.
  assert (Hin : In (sq_of 2 5)
                   (GetValidMoves (mkPiece Knight White (sq_of 1 7) false) (squares start)))
    by (vm_compute; tauto).
  split; [exact Hin|].
  exact (GetValidMoves_targets _ _ _ Hin).
Defined.

Lemma Knight_GetValidMoves_spec_witness :
  type (mkPiece Knight White (sq_of 1 7) false) = Knight
  /\ (In (sq_of 2 5) (GetValidMoves (mkPiece Knight White (sq_of 1 7) false) (squares start))
      <-> ((Z.abs (2 - 1) = 1 /\ Z.abs (5 - 7) = 2) \/ (Z.abs (2 - 1) = 2 /\ Z.abs (5 - 7) = 1))
          /\ CanMoveTo (squares start) 2 5 White = true).
Proof.
  split; [reflexivity|].
  apply (Knight_GetValidMoves_spec (mkPiece Knight White (sq_of 1 7) false)
           (squares start) (sq_of 2 5)).
  reflexivity.
Defined.

Lemma King_GetValidMoves_spec_witness :
  type (mkPiece King White (sq_of 0 7) false) = King
  /\ (In (sq_of 1 6) (GetValidMoves (mkPiece King White (sq_of 0 7) false)
                                    (squares stalemate_board))
      <-> Z.max (Z.abs (1 - 0)) (Z.abs (6 - 7)) = 1
          /\ CanMoveTo (squares stalemate_board) 1 6 White = true).
Proof.
  split; [reflexivity|].
  apply (King_GetValidMoves_spec (mkPiece King White (sq_of 0 7) false)
           (squares stalemate_board) (sq_of 1 6)).
  reflexivity.
Defined.

Lemma sliding_GetValidMoves_spec_witness :
  (type (mkPiece Queen Black (sq_of 2 0) false) = Rook
   \/ type (mkPiece Queen Black (sq_of 2 0) false) = Bishop
   \/ type (mkPiece Queen Black (sq_of 2 0) false) = Queen)
  /\ exists d k,
       In d queen_dirs /\ 1 <= k <= 7
       /\ sq_of 2 6 = mkVector2Int (2 + fst d * k) (0 + snd d * k)
       /\ (forall j, 1 <= j < k ->
             InBounds (2 + fst d * j) (0 + snd d * j) = true
             /\ cell (squares stalemate_board) (2 + fst d * j) (0 + snd d * j) = None)
       /\ CanMoveTo (squares stalemate_board) 2 6 Black = true.
Proof.
  split; [right; right; reflexivity|].
  apply (sliding_GetValidMoves_spec (mkPiece Queen Black (sq_of 2 0) false)
           (squares stalemate_board) (sq_of 2 6)).
  - right; right; reflexivity.
  - vm_compute. tauto.
Defined.

Lemma MovePiece_accepts_iff_legal_witness :
  grid_shape (squares start)
  /\ (fst (MovePiece (sq_of 4 6) (sq_of 4 4) start) <> Invalid
      <-> exists piece,
            move_ready (sq_of 4 6) (sq_of 4 4) start piece
            /\ IsInCheck (currentTurn start)
                 (relocate (squares start) 4 6 piece (sq_of 4 4)) = false).
Proof.
  split; [apply grid_shapeb_sound; vm_compute; reflexivity|].
  apply (MovePiece_accepts_iff_legal (sq_of 4 6) (sq_of 4 4) start).
  apply grid_shapeb_sound. vm_compute. reflexivity.
Defined.

Lemma HasLegalMoves_iff_MovePiece_accepts_witness :
  grid_shape (squares start) /\ gameOver start = false
  /\ (fst (HasLegalMoves (currentTurn start) start) = true
      <-> exists f t, fst (MovePiece f t start) <> Invalid).
Proof.
  split; [apply grid_shapeb_sound; vm_compute; reflexivity|].
  split; [reflexivity|].
  apply (HasLegalMoves_iff_MovePiece_accepts start).
  - apply grid_shapeb_sound. vm_compute. reflexivity.
  - reflexivity.
Defined.

Lemma MovePiece_rejects_witness :
  (exists q, cell (squares start) 0 6 = Some q /\ color q = currentTurn start)
  /\ MovePiece (sq_of 0 7) (sq_of 0 6) start = (Invalid, start).
Proof.
  assert (H : exists q, cell (squares start) 0 6 = Some q /\ color q = currentTurn start).
  { exists (mkPiece Pawn White (sq_of 0 6) false). vm_compute. split; reflexivity. }
  split; [exact H|].
  apply (MovePiece_rejects (sq_of 0 7) (sq_of 0 6) start).
  do 6 right. exact H.
Defined.

Lemma MovePiece_commit_effect_witness :
  grid_shape (squares black_promotion_board)
  /\ exists piece,
       cell (squares black_promotion_board) 0 6 = Some piece
       /\ (forall cx cy, InBounds cx cy = true ->
             cell (squares (snd (MovePiece (sq_of 0 6) (sq_of 1 7) black_promotion_board))) cx cy
             = if bool_decide (1 = cx /\ 7 = cy)
               then Some (if IsPromotion (moved_piece piece (sq_of 1 7))
                          then mkPiece Queen (color piece) (sq_of 1 7) false
                          else mkPiece (type piece) (color piece) (sq_of 1 7) true)
               else if bool_decide (0 = cx /\ 6 = cy) then None
               else cell (squares black_promotion_board) cx cy)
       /\ history (snd (MovePiece (sq_of 0 6) (sq_of 1 7) black_promotion_board))
          = mkMoveCommand (sq_of 0 6) (sq_of 1 7) piece
              (cell (squares black_promotion_board) 1 7) (hasMoved piece)
              (IsPromotion (moved_piece piece (sq_of 1 7)))
              (currentTurn black_promotion_board)
            :: history black_promotion_board.
Proof.
  split; [apply grid_shapeb_sound; vm_compute; reflexivity|].
  apply (MovePiece_commit_effect (sq_of 0 6) (sq_of 1 7) black_promotion_board Check).
  - apply grid_shapeb_sound. vm_compute. reflexivity.
  - vm_compute. reflexivity.
  - discriminate.
Defined.

Lemma MovePiece_take_back_effect_witness :
  IsInCheck (currentTurn pinned_pawn_board)
    (apply_move (squares pinned_pawn_board) (mkPiece Pawn White (sq_of 5 6) false)
                (sq_of 5 6) (sq_of 5 5)) = true
  /\ fst (MovePiece (sq_of 5 6) (sq_of 5 5) pinned_pawn_board) = Invalid
  /\ history (snd (MovePiece (sq_of 5 6) (sq_of 5 5) pinned_pawn_board))
     = history pinned_pawn_board.
Proof.
  split; [vm_compute; reflexivity|].
  destruct (MovePiece_take_back_effect (sq_of 5 6) (sq_of 5 5) pinned_pawn_board
              (mkPiece Pawn White (sq_of 5 6) false)) as (Hr & _ & _ & _ & Hh & _).
  - apply grid_shapeb_sound. vm_compute. reflexivity.
  - unfold move_ready. vm_compute. repeat split; try reflexivity. tauto.
  - reflexivity.
  - vm_compute. reflexivity.
  - split; [exact Hr|exact Hh].
Defined.

Lemma MovePiece_after_game_end_witness :
  grid_shape (squares fools_mate_board)
  /\ (let b' := snd (MovePiece (sq_of 3 0) (sq_of 7 4) fools_mate_board) in
      gameOver b' = true /\ MovePiece (sq_of 4 6) (sq_of 4 5) b' = (Invalid, b')).
Proof.
  split; [apply grid_shapeb_sound; vm_compute; reflexivity|].
  apply (MovePiece_after_game_end (sq_of 3 0) (sq_of 7 4) fools_mate_board Checkmate).
  - apply grid_shapeb_sound. vm_compute. reflexivity.
  - vm_compute. reflexivity.
  - left. reflexivity.
Defined.

Lemma MovePiece_preserves_wf_witness :
  wf_board pinned_pawn_board
  /\ wf_board (snd (MovePiece (sq_of 5 6) (sq_of 5 5) pinned_pawn_board)).
Proof.
  split; [apply wf_boardb_sound; vm_compute; reflexivity|].
  apply (MovePiece_preserves_wf (sq_of 5 6) (sq_of 5 5) pinned_pawn_board).
  apply wf_boardb_sound. vm_compute. reflexivity.
Defined.

Lemma UndoLastMove_preserves_wf_witness :
  wf_board pinned_pawn_board /\ wf_board (snd (UndoLastMove pinned_pawn_board)).
Proof.
  split; [apply wf_boardb_sound; vm_compute; reflexivity|].
  apply (UndoLastMove_preserves_wf pinned_pawn_board).
  apply wf_boardb_sound. vm_compute. reflexivity.
Defined.

Lemma GetPieceAt_reachable_witness :
  reachable (snd (MovePiece (sq_of 4 6) (sq_of 4 4) start))
  /\ forall p, GetPieceAt (sq_of 4 4) (snd (MovePiece (sq_of 4 6) (sq_of 4 4) start)) = Some p ->
       boardPosition p = sq_of 4 4 /\ color p <> NoColor /\ type p <> NoType.
Proof.
  split; [apply reachable_move, reachable_start|].
  apply (GetPieceAt_reachable (snd (MovePiece (sq_of 4 6) (sq_of 4 4) start)) (sq_of 4 4)).
  apply reachable_move, reachable_start.
Defined.

Lemma undo_n_play_witness :
  wf_board start
  /\ undo_n 4 (snd (play [(sq_of 5 6, sq_of 5 5); (sq_of 4 1, sq_of 4 3);
                          (sq_of 6 6, sq_of 6 4); (sq_of 3 0, sq_of 7 4)] start))
     = start.
Proof.
  split; [apply wf_boardb_sound; vm_compute; reflexivity|].
  apply (undo_n_play [(sq_of 5 6, sq_of 5 5); (sq_of 4 1, sq_of 4 3);
                      (sq_of 6 6, sq_of 6 4); (sq_of 3 0, sq_of 7 4)]
           start [Success; Success; Success; Checkmate]).
  - apply wf_boardb_sound. vm_compute. reflexivity.
  - vm_compute. reflexivity.
  - repeat constructor; discriminate.
Defined.

Lemma Initialize_effect_witness :
  grid_shape (squares pinned_pawn_board)
  /\ currentTurn (Initialize pinned_pawn_board) = currentTurn pinned_pawn_board
  /\ history (Initialize pinned_pawn_board) = history pinned_pawn_board
  /\ cell (squares (Initialize pinned_pawn_board)) 7 4 = cell (squares pinned_pawn_board) 7 4.
Proof.
  split; [apply grid_shapeb_sound; vm_compute; reflexivity|].
  destruct (Initialize_effect pinned_pawn_board) as (Ht & _ & _ & Hh & Hc).
  - apply grid_shapeb_sound. vm_compute. reflexivity.
  - split; [exact Ht|]. split; [exact Hh|]. exact (Hc 7 4 eq_refl).
Defined.

Lemma Initialize_idempotent_witness :
  grid_shape (squares pinned_pawn_board)
  /\ Initialize (Initialize pinned_pawn_board) = Initialize pinned_pawn_board.
Proof.
  split; [apply grid_shapeb_sound; vm_compute; reflexivity|].
  apply (Initialize_idempotent pinned_pawn_board).
  apply grid_shapeb_sound. vm_compute. reflexivity.
Defined.

Lemma Update_preserves_wf_witness :
  wf_board (ChessGame.board started_game)
  /\ wf_board (ChessGame.board (ChessGame.Update click_e2 started_game)).
Proof.
  split; [apply wf_boardb_sound; vm_compute; reflexivity|].
  apply (Update_preserves_wf click_e2 started_game).
  apply wf_boardb_sound. vm_compute. reflexivity.
Defined.

Lemma run_game_over_frozen_witness :
  gameOver (ChessGame.board mated_game) = true
  /\ ChessGame.board (ChessGame.run [press_U; click_e2] mated_game)
     = ChessGame.board mated_game.
Proof.
  split; [vm_compute; reflexivity|].
  apply (run_game_over_frozen [press_U; click_e2] mated_game).
  vm_compute. reflexivity.
Defined.

Lemma Update_selection_ok_witness :
  grid_shape (squares (ChessGame.board (ChessGame.Update click_e2 started_game)))
  /\ ChessGame.selection_ok (ChessGame.Update click_e2 started_game)
  /\ ChessGame.selection_ok
       (ChessGame.Update click_e4 (ChessGame.Update click_e2 started_game)).
Proof.
  assert (Hs : grid_shape (squares (ChessGame.board (ChessGame.Update click_e2 started_game))))
    by (apply grid_shapeb_sound; vm_compute; reflexivity).
  assert (Hok : ChessGame.selection_ok (ChessGame.Update click_e2 started_game)).
  { intros _ _. exists (mkPiece Pawn White (sq_of 4 6) false).
    vm_compute. split; reflexivity. }
  split; [exact Hs|]. split; [exact Hok|].
  exact (Update_selection_ok click_e4 _ Hs Hok).
Defined.

Lemma Update_click_off_board_witness :
  ChessGame.keyU click_status_bar = false
  /\ InBounds (Z.quot (ChessGame.mouseX click_status_bar) TILE_SIZE)
              (Z.quot (ChessGame.mouseY click_status_bar) TILE_SIZE) = false
  /\ ChessGame.board (ChessGame.Update click_status_bar
                        (ChessGame.Update click_e2 started_game))
     = ChessGame.board (ChessGame.Update click_e2 started_game).
Proof.
  split; [reflexivity|]. split; [reflexivity|].
  apply (Update_click_off_board click_status_bar (ChessGame.Update click_e2 started_game));
    reflexivity.
Defined.
